(** * Speech emotion analysis: feature extraction and emotion scoring

    A shallow embedding of the numeric core of [script.js]
    ([AudioEmotionAnalyzer.extractAudioFeatures], [calculateVariance],
    [calculateSpectralFeatures], [calculateEmotion]) and the properties of
    it that the specification states.

    Numbers.  A JavaScript number is modelled by [num]: a rational, one of
    the two infinities, or NaN.  The special values follow ECMAScript: [0/0]
    is NaN, NaN is absorbing, every comparison with NaN is false.  Finite
    arithmetic is exact, its results kept in lowest terms: binary64
    rounding, overflow and the sign of zero are not modelled, with one
    exception.  The product under the [Math.floor] that gives the length of
    the analysis window is rounded to binary64 as the code rounds it
    ([mul64]), since the floor makes the length depend on that rounding.
    [Math.sqrt] is exact on squares of rationals and truncated to 64
    fractional bits elsewhere. *)

From Stdlib Require Import Ascii String ZArith QArith Qround Qabs Qminmax.
From Stdlib Require Import List Bool Lia Lqa.
Import ListNotations.

Open Scope Q_scope.

(** ** JavaScript numbers *)

Module JS.

Inductive num : Type :=
| Fin (q : Q)
| PInf
| NInf
| NaN.

Definition zero : num := Fin 0.

Definition of_Z (z : Z) : num := Fin (inject_Z z).

(** Equality of the values denoted, [NaN] taken as one value. *)
Definition num_eq (x y : num) : Prop :=
  match x, y with
  | Fin a, Fin b => a == b
  | PInf, PInf => True
  | NInf, NInf => True
  | NaN, NaN => True
  | _, _ => False
  end.

Definition is_finite (x : num) : Prop :=
  match x with Fin _ => True | _ => False end.

(** [lo <= x <= hi] for a finite [x]; false for NaN and the infinities. *)
Definition within (lo hi : Q) (x : num) : Prop :=
  match x with Fin q => lo <= q <= hi | _ => False end.

(** A finite value that is at least 0. *)
Definition nonneg (x : num) : Prop :=
  match x with Fin q => 0 <= q | _ => False end.

(** A finite value above 0. *)
Definition positive_num (x : num) : Prop :=
  match x with Fin q => 0 < q | _ => False end.

(** What a sum of absolute values can be: a finite value that is at least
    0, [Infinity] or NaN. *)
Definition abs_sum (x : num) : Prop :=
  match x with Fin q => 0 <= q | NInf => False | _ => True end.

(** A finite value that is at least 0, or [Infinity]. *)
Definition nonneg_or_inf (x : num) : Prop :=
  match x with Fin q => 0 <= q | PInf => True | _ => False end.

Definition neg (x : num) : num :=
  match x with
  | Fin q => Fin (- q)
  | PInf => NInf
  | NInf => PInf
  | NaN => NaN
  end.

Definition add (x y : num) : num :=
  match x, y with
  | NaN, _ | _, NaN => NaN
  | PInf, NInf | NInf, PInf => NaN
  | PInf, _ | _, PInf => PInf
  | NInf, _ | _, NInf => NInf
  | Fin a, Fin b => Fin (Qred (a + b))
  end.

Definition sub (x y : num) : num := add x (neg y).

(** An infinity scaled by a finite factor: the factor's sign decides, and
    zero gives NaN. *)
Definition scale_inf (pos : bool) (q : Q) : num :=
  match q ?= 0 with
  | Eq => NaN
  | Gt => if pos then PInf else NInf
  | Lt => if pos then NInf else PInf
  end.

Definition mul (x y : num) : num :=
  match x, y with
  | NaN, _ | _, NaN => NaN
  | Fin a, Fin b => Fin (Qred (a * b))
  | PInf, Fin b => scale_inf true b
  | NInf, Fin b => scale_inf false b
  | Fin a, PInf => scale_inf true a
  | Fin a, NInf => scale_inf false a
  | PInf, PInf | NInf, NInf => PInf
  | PInf, NInf | NInf, PInf => NInf
  end.

(** Division.  A finite divisor equal to zero stands for [+0]. *)
Definition div (x y : num) : num :=
  match x, y with
  | NaN, _ | _, NaN => NaN
  | Fin a, Fin b =>
      match b ?= 0 with
      | Eq => match a ?= 0 with Eq => NaN | Gt => PInf | Lt => NInf end
      | _ => Fin (Qred (a / b))
      end
  | Fin _, _ => Fin 0
  | PInf, Fin b => match b ?= 0 with Lt => NInf | _ => PInf end
  | NInf, Fin b => match b ?= 0 with Lt => PInf | _ => NInf end
  | _, _ => NaN
  end.

(** The operator [<]. *)
Definition lt (x y : num) : bool :=
  match x, y with
  | NaN, _ | _, NaN => false
  | Fin a, Fin b => match a ?= b with Lt => true | _ => false end
  | NInf, NInf | PInf, _ => false
  | NInf, _ => true
  | Fin _, PInf => true
  | Fin _, NInf => false
  end.

(** The operator [>]. *)
Definition gt (x y : num) : bool := lt y x.

Definition Math_min (x y : num) : num :=
  match x, y with
  | NaN, _ | _, NaN => NaN
  | _, _ => if lt y x then y else x
  end.

Definition Math_max (x y : num) : num :=
  match x, y with
  | NaN, _ | _, NaN => NaN
  | _, _ => if lt x y then y else x
  end.

Definition Math_abs (x : num) : num :=
  match x with
  | Fin q => Fin (Qabs q)
  | PInf | NInf => PInf
  | NaN => NaN
  end.

Definition Math_floor (x : num) : num :=
  match x with
  | Fin q => of_Z (Qfloor q)
  | _ => x
  end.

(** [Math.round]: the nearest integer, a tie going towards [+Infinity]. *)
Definition Math_round (x : num) : num :=
  match x with
  | Fin q => of_Z (Qfloor (q + (1 # 2)))
  | _ => x
  end.

(** [Math.pow] at a natural exponent; [Math.pow(x, 0)] is 1 for every [x]. *)
Fixpoint Math_pow (x : num) (n : nat) : num :=
  match n with
  | O => Fin 1
  | S k => mul x (Math_pow x k)
  end.

Definition sqrt_bits : Z := 64.

Definition Qsqrt (q : Q) : Q :=
  let n := Qnum q in
  let d := Zpos (Qden q) in
  let r := Z.sqrt (n * d) in
  Qred (if (r * r =? n * d)%Z then Qmake r (Qden q)
        else Qmake (Z.sqrt (n * d * 4 ^ sqrt_bits))
                   (Qden q * Z.to_pos (2 ^ sqrt_bits))).

Definition Math_sqrt (x : num) : num :=
  match x with
  | Fin q => match q ?= 0 with Lt => NaN | _ => Fin (Qsqrt q) end
  | PInf => PInf
  | NInf | NaN => NaN
  end.

(** *** The one product rounded as in binary64

    [Math.floor] is not continuous, so the length of the analysis window
    depends on how the product under it is rounded.  That product is
    modelled as the code computes it: the exact product rounded to the
    nearest binary64 number, a tie going to the even significand, with
    gradual underflow and with overflow to [Infinity]. *)

(** The integer nearest to [a / b] for [a >= 0], a tie going to the even
    one. *)
Definition round_half_even (a : Z) (b : positive) : Z :=
  let q := (a / Zpos b)%Z in
  match (2 * (a mod Zpos b) ?= Zpos b)%Z with
  | Lt => q
  | Gt => (q + 1)%Z
  | Eq => if Z.even q then q else (q + 1)%Z
  end.

(** Whether [2^k <= n / d]. *)
Definition ge_pow2 (n d : positive) (k : Z) : bool :=
  if (0 <=? k)%Z then (Zpos d * 2 ^ k <=? Zpos n)%Z
  else (Zpos d <=? Zpos n * 2 ^ (- k))%Z.

(** [floor(log2(n / d))]. *)
Definition Qlog2 (n d : positive) : Z :=
  let k := (Z.log2 (Zpos n) - Z.log2 (Zpos d))%Z in
  if ge_pow2 n d k then k else (k - 1)%Z.

(** The binary64 number nearest to [n / d]: a significand [m] of at most
    53 bits times [2^e], [e] from -1074 to 971. *)
Definition round64_pos (n d : positive) : num :=
  let e := Z.max (Qlog2 n d - 52) (-1074) in
  let m :=
    if (0 <=? e)%Z then round_half_even (Zpos n) (d * Z.to_pos (2 ^ e))
    else round_half_even (Zpos n * 2 ^ (- e)) d in
  if (971 <? e)%Z then PInf
  else if ((e =? 971)%Z && (m =? 2 ^ 53)%Z)%bool then PInf
  else if (0 <=? e)%Z then Fin (inject_Z (m * 2 ^ e))
  else Fin (Qred (m # Z.to_pos (2 ^ (- e)))).

Definition round64 (q : Q) : num :=
  match Qnum q with
  | Z0 => Fin 0
  | Zpos n => round64_pos n (Qden q)
  | Zneg n => neg (round64_pos n (Qden q))
  end.

(** The operator [*] with its binary64 rounding. *)
Definition mul64 (x y : num) : num :=
  match x, y with
  | Fin a, Fin b => round64 (Qred (a * b))
  | _, _ => mul x y
  end.

(** [ToIntegerOrInfinity] on a finite value: truncation towards zero. *)
Definition Qtrunc (q : Q) : Z := Z.quot (Qnum q) (Zpos (Qden q)).

(** [TypedArray.prototype.slice(0, e)]: a negative [e] counts from the
    end, NaN is 0, and the result is clamped to the array. *)
Definition slice_end (len : Z) (e : num) : Z :=
  match e with
  | NaN | NInf => 0
  | PInf => len
  | Fin q =>
      let r := Qtrunc q in
      if (r <? 0)%Z then Z.max (len + r) 0 else Z.min r len
  end.

Definition slice0 {A : Type} (l : list A) (e : num) : list A :=
  firstn (Z.to_nat (slice_end (Z.of_nat (length l)) e)) l.

(** The [length] property of an array, as a number. *)
Definition len {A : Type} (l : list A) : num := of_Z (Z.of_nat (length l)).

End JS.

Import JS.

Declare Scope js_scope.
Delimit Scope js_scope with js.
Bind Scope js_scope with num.
Infix "+" := add : js_scope.
Infix "-" := sub : js_scope.
Infix "*" := mul : js_scope.
Infix "/" := div : js_scope.
Infix "<" := lt : js_scope.
Infix ">" := gt : js_scope.
Infix "==" := num_eq (at level 70, no associativity) : js_scope.
Coercion Fin : Q >-> num.

(** ** The analyser *)

(** What the analyser reads of a decoded [AudioBuffer]: its duration in
    seconds, its sample rate and the samples of channel 0. *)
Record AudioBuffer : Type := mkAudioBuffer {
  ab_duration : num;
  ab_sampleRate : num;
  ab_channel0 : list num
}.

Definition getChannelData0 (b : AudioBuffer) : list num := ab_channel0 b.

(** The object [extractAudioFeatures] returns. *)
Record AudioFeatures : Type := mkAudioFeatures {
  duration : num;
  sampleRate : num;
  rms : num;
  rmsVariance : num;
  zcr : num;
  lowFreqRatio : num;
  highFreqRatio : num;
  spectralCentroid : num
}.

Module AudioEmotionAnalyzer.

Definition maxDuration : num := Fin 30.

(** [for (let i = start; ...; i++)] over the elements of [data], the loop
    variables threaded as [st]. *)
Fixpoint for_index {S : Type} (body : Z -> num -> S -> S)
    (i : Z) (data : list num) (st : S) : S :=
  match data with
  | [] => st
  | x :: rest => for_index body (i + 1)%Z rest (body i x st)
  end.

(** The samples analysed: at most 30 seconds from the start of channel 0. *)
Definition totalSamples (b : AudioBuffer) : num :=
  Math_floor (mul64 (Math_min (ab_duration b) maxDuration) (ab_sampleRate b)).

Definition analysisData (b : AudioBuffer) : list num :=
  slice0 (getChannelData0 b) (totalSamples b).

Definition sumSquares (data : list num) : num :=
  for_index (fun _ x sum => sum + x * x)%js 0 data zero.

Definition calculateVariance (data : list num) (mean : num) : num :=
  (for_index (fun _ x variance => variance + Math_pow (x - mean) 2)%js 0 data zero
   / len data)%js.

(** The zero-crossing loop, [prev] being [data[i-1]]. *)
Fixpoint crossings_from (prev : num) (rest : list num) (count : Z) : Z :=
  match rest with
  | [] => count
  | x :: rest' =>
      crossings_from x rest'
        (if (prev * x < zero)%js then (count + 1)%Z else count)
  end.

Definition zeroCrossings (data : list num) : Z :=
  match data with
  | [] => 0%Z
  | x :: rest => crossings_from x rest 0%Z
  end.

(** The three energies of [calculateSpectralFeatures]. *)
Record Energies : Type := mkEnergies {
  lowFreqEnergy : num;
  midFreqEnergy : num;
  highFreqEnergy : num
}.

Definition energy_step (third : Z) (i : Z) (x : num) (e : Energies) : Energies :=
  let energy := Math_abs x in
  if (i <? third)%Z then
    mkEnergies (lowFreqEnergy e + energy)%js (midFreqEnergy e) (highFreqEnergy e)
  else if (i <? 2 * third)%Z then
    mkEnergies (lowFreqEnergy e) (midFreqEnergy e + energy)%js (highFreqEnergy e)
  else
    mkEnergies (lowFreqEnergy e) (midFreqEnergy e) (highFreqEnergy e + energy)%js.

Definition energies (data : list num) : Energies :=
  let third := (Z.of_nat (length data) / 3)%Z in
  for_index (energy_step third) 0 data (mkEnergies zero zero zero).

Definition totalEnergy (data : list num) : num :=
  let e := energies data in
  (lowFreqEnergy e + midFreqEnergy e + highFreqEnergy e)%js.

(** The centroid loop: [(weightedSum, sum)] over the first frame. *)
Definition centroid_step (i : Z) (x : num) (st : num * num) : num * num :=
  let magnitude := Math_abs x in
  (fst st + of_Z i * magnitude, snd st + magnitude)%js.

Definition frameSize (data : list num) : nat := Nat.min (length data) 1024.

Definition centroid_sums (data : list num) : num * num :=
  for_index centroid_step 0 (firstn (frameSize data) data) (zero, zero).

Record SpectralFeatures : Type := mkSpectralFeatures {
  sf_lowFreqRatio : num;
  sf_highFreqRatio : num;
  sf_spectralCentroid : num
}.

Definition calculateSpectralFeatures (data : list num) : SpectralFeatures :=
  let e := energies data in
  let totalEnergy := (lowFreqEnergy e + midFreqEnergy e + highFreqEnergy e)%js in
  let '(weightedSum, sum) := centroid_sums data in
  mkSpectralFeatures
    (lowFreqEnergy e / totalEnergy)%js
    (highFreqEnergy e / totalEnergy)%js
    (if (sum > zero)%js then (weightedSum / sum)%js else zero).

Definition extractAudioFeatures (b : AudioBuffer) : AudioFeatures :=
  let duration := Math_min (ab_duration b) maxDuration in
  let sampleRate := ab_sampleRate b in
  let analysisData := analysisData b in
  let rms := Math_sqrt (sumSquares analysisData / len analysisData)%js in
  let rmsVariance := calculateVariance analysisData rms in
  let zcr := (of_Z (zeroCrossings analysisData) / len analysisData)%js in
  let spectralFeatures := calculateSpectralFeatures analysisData in
  mkAudioFeatures duration sampleRate rms rmsVariance zcr
    (sf_lowFreqRatio spectralFeatures)
    (sf_highFreqRatio spectralFeatures)
    (sf_spectralCentroid spectralFeatures).

(** The four scores of [emotionScores], in the order of its keys. *)
Record EmotionScores : Type := mkEmotionScores {
  calm : num;
  tense : num;
  angry : num;
  excited : num
}.

Record FeatureSummary : Type := mkFeatureSummary {
  volume : num;
  variability : num;
  zeroCrossing : num
}.

(** The object [calculateEmotion] returns. *)
Record EmotionResult : Type := mkEmotionResult {
  emotions : EmotionScores;
  conflictRisk : num;
  res_duration : num;
  timestamp : string;
  features : FeatureSummary
}.

(** The scores before normalisation. *)
Definition rawScores (f : AudioFeatures) : EmotionScores :=
  mkEmotionScores
    (Math_max zero (Fin 100 - rmsVariance f * Fin 1000 - zcr f * Fin 500))%js
    (Math_min (Fin 100) (zcr f * Fin 800 + rmsVariance f * Fin 600))%js
    (Math_min (Fin 100) (spectralCentroid f * Fin 50 + highFreqRatio f * Fin 200))%js
    (Math_min (Fin 100) ((rmsVariance f + zcr f) * Fin 400))%js.

(** [Object.values(emotionScores).reduce((sum, score) => sum + score, 0)]. *)
Definition scoreTotal (s : EmotionScores) : num :=
  fold_left add [calm s; tense s; angry s; excited s] zero.

Definition normalize (total score : num) : num :=
  Math_round (score / total * Fin 100)%js.

Definition normalizeScores (s : EmotionScores) : EmotionScores :=
  let total := scoreTotal s in
  mkEmotionScores (normalize total (calm s)) (normalize total (tense s))
    (normalize total (angry s)) (normalize total (excited s)).

(** The weighted sum that [conflictRisk] rounds. *)
Definition riskSum (s : EmotionScores) : num :=
  (tense s * Fin 0.4 + angry s * Fin 0.6 + excited s * Fin 0.2)%js.

(** [now] is what [new Date().toLocaleString('zh-CN')] reads from the
    clock. *)
Definition calculateEmotion (now : string) (f : AudioFeatures)
    (duration : num) : EmotionResult :=
  let emotionScores := normalizeScores (rawScores f) in
  let conflictRisk := Math_min (Fin 100) (riskSum emotionScores) in
  mkEmotionResult
    emotionScores
    (Math_round conflictRisk)
    (Math_round (duration * Fin 100) / Fin 100)%js
    now
    (mkFeatureSummary
       (Math_round (rms f * Fin 1000)%js)
       (Math_round (rmsVariance f * Fin 1000)%js)
       (Math_round (zcr f * Fin 100)%js)).

(** The two calls of [analyzeAudioFile] on the decoded buffer. *)
Definition analyze (now : string) (b : AudioBuffer) : EmotionResult :=
  let features := extractAudioFeatures b in
  calculateEmotion now features (ab_duration b).

(** The first revision of the class, kept in the same file, has the same
    energy loop and divides by the sum written out in each ratio. *)
Module Revision1.

Definition lowFreqRatio (channelData : list num) : num :=
  let e := energies channelData in
  (lowFreqEnergy e / (lowFreqEnergy e + midFreqEnergy e + highFreqEnergy e))%js.

Definition highFreqRatio (channelData : list num) : num :=
  let e := energies channelData in
  (highFreqEnergy e / (lowFreqEnergy e + midFreqEnergy e + highFreqEnergy e))%js.

End Revision1.

(** How a call completes.  No path of [extractAudioFeatures] has a [throw]
    and the arithmetic of numbers never raises, so the call always completes
    normally. *)
Inductive ErrorKind : Type := EmptyInput.

Inductive completion (A : Type) : Type :=
| Normal (a : A)
| Throw (e : ErrorKind).

Arguments Normal {A} a.
Arguments Throw {A} e.

Definition extract_completion (b : AudioBuffer) : completion AudioFeatures :=
  Normal (extractAudioFeatures b).

End AudioEmotionAnalyzer.

Import AudioEmotionAnalyzer.

(** ** Inputs of the scenarios *)

(** The four alternating samples, one second at 4 samples per second. *)
Definition alternating4 : AudioBuffer :=
  mkAudioBuffer (Fin 1) (Fin 4) [Fin 1; Fin (-1); Fin 1; Fin (-1)].

(** Silence: 1000 zero samples at 8000 Hz, duration 1.0. *)
Definition silence1000 : AudioBuffer :=
  mkAudioBuffer (Fin 1) (Fin 8000) (repeat zero 1000).

(** A decoded buffer without samples. *)
Definition emptyBuffer : AudioBuffer :=
  mkAudioBuffer (Fin 0) (Fin 44100) [].

(** 120 seconds at 44100 Hz. *)
Definition long120 : AudioBuffer :=
  mkAudioBuffer (Fin 120) (Fin 44100) (repeat zero (Z.to_nat 5292000)).

(** The buffer with the polarity of every sample inverted. *)
Definition invert (b : AudioBuffer) : AudioBuffer :=
  mkAudioBuffer (ab_duration b) (ab_sampleRate b) (map neg (ab_channel0 b)).

(** One sample at full scale. *)
Definition click : AudioBuffer := mkAudioBuffer (Fin 1) (Fin 1) [Fin 1].

(** Two readings of the clock. *)
Definition morning : string := "2026/1/1 09:00:00"%string.
Definition noon : string := "2026/1/1 12:00:00"%string.

(** Features whose raw scores are 100, 0, 60 and 0. *)
Definition driftFeatures : AudioFeatures :=
  mkAudioFeatures (Fin 1) (Fin 8000) zero zero zero zero zero (Fin 1.2).

(** Features whose raw scores are 0, 60, 100 and 40. *)
Definition angryFeatures : AudioFeatures :=
  mkAudioFeatures (Fin 1) (Fin 8000) zero (Fin 0.1) zero zero zero (Fin 2).

(** Features of the high-tension scenario: [rmsVariance] 0.05, [zcr] 0.3. *)
Definition tenseFeatures : AudioFeatures :=
  mkAudioFeatures (Fin 1) (Fin 8000) zero (Fin 0.05) (Fin 0.3) zero zero zero.

(** The sum of the absolute values of the samples [l], from the left. *)
Definition sumAbs (l : list num) : num :=
  fold_left (fun acc x => acc + Math_abs x)%js l zero.

(** ** The application class *)

(** The methods of [SpeechEmotionApp] that read an analysis result, and its
    upload and analysis controller (second revision of the class). *)
Module SpeechEmotionApp.

Local Open Scope string_scope.

(** [Object.entries(emotions)], in the order of the keys. *)
Definition entries (e : EmotionScores) : list (string * num) :=
  [("calm", calm e); ("tense", tense e); ("angry", angry e);
   ("excited", excited e)].

(** The body of the loop of [getDominantEmotion] on
    [(maxValue, dominantEmotion)]. *)
Definition dominant_step (st : num * string) (entry : string * num)
    : num * string :=
  let '(emotion, value) := entry in
  if (value > fst st)%js then (value, emotion) else st.

Definition emotionNames : list (string * string) :=
  [("calm", "平静"); ("tense", "紧张"); ("angry", "愤怒"); ("excited", "兴奋")].

(** [obj[key]] on an object literal; [None] is [undefined]. *)
Fixpoint property (obj : list (string * string)) (key : string) : option string :=
  match obj with
  | [] => None
  | (k, v) :: rest => if String.eqb k key then Some v else property rest key
  end.

Definition getDominantEmotion (emotions : EmotionScores) : string :=
  let '(maxValue, dominantEmotion) :=
    fold_left dominant_step (entries emotions) (zero, EmptyString) in
  match property emotionNames dominantEmotion with
  | Some name => name
  | None => "平静"
  end.

Definition getRiskLevel (risk : num) : string :=
  if (risk < Fin 30)%js then "低风险"
  else if (risk < Fin 60)%js then "中等风险"
  else "高风险".

Definition getRiskAdvice (risk : num) : string :=
  if (risk < Fin 30)%js then
    "当前对话氛围良好，继续保持积极沟通即可。"
  else if (risk < Fin 60)%js then
    "建议关注对话中的紧张情绪，适时引导话题走向更积极的方向。"
  else
    "检测到较高冲突风险，建议暂停当前话题，先处理情绪再继续沟通。".

(** The character [U+0022]. *)
Definition dquote : string := String "034"%char EmptyString.

Definition rec_angry : string :=
  "避免直接对抗，使用" ++ dquote ++ "我" ++ dquote ++ "语句表达感受".
Definition rec_tense : string := "尝试降低语速，使用更平静的语调".
Definition rec_pause : string := "考虑暂停讨论，稍后继续".
Definition rec_calm : string := "当前沟通方式有效，可继续保持".
Definition rec_default : string := "当前沟通状态良好，无需特别调整".

(** [recommendations.push(s)] under the condition [c]. *)
Definition push_if (c : bool) (s : string) (l : list string) : list string :=
  if c then l ++ [s] else l.

(** The array [recommendations] before it is mapped and joined. *)
Definition recommendations (emotions : EmotionScores) (risk : num) : list string :=
  let r1 := push_if (angry emotions > Fin 20)%js rec_angry [] in
  let r2 := push_if (tense emotions > Fin 30)%js rec_tense r1 in
  let r3 := push_if (risk > Fin 50)%js rec_pause r2 in
  let r4 := push_if (calm emotions > Fin 50)%js rec_calm r3 in
  push_if (length r4 =? 0)%nat rec_default r4.

Definition getActionRecommendations (emotions : EmotionScores) (risk : num)
    : string :=
  String.concat "<br>"
    (map (fun rec => "• " ++ rec) (recommendations emotions risk)).

(** The data of the bar chart of [createFeatureChart]. *)
Definition featureChartData (f : FeatureSummary) : list num :=
  [(volume f / Fin 10)%js; (variability f / Fin 5)%js; zeroCrossing f].

(** A value of a property of a DOM element. *)
Inductive DomValue : Type :=
| Text (s : string)
| Flag (b : bool).

(** The document: the value of each property of each element, by the
    element's id. *)
Definition Document : Type := string -> string -> DomValue.

(** [document.getElementById(id).prop = v]. *)
Definition setProp (id prop : string) (v : DomValue) (doc : Document) : Document :=
  fun id' prop' =>
    if (String.eqb id id' && String.eqb prop prop')%bool then v else doc id' prop'.

(** What [handleFile] reads of a [File]. *)
Record File : Type := mkFile {
  file_name : string;
  file_type : string;
  file_size : Z
}.

(** How the promise of [analyzeAudioFile] settles. *)
Inductive Settled : Type :=
| Resolved (result : EmotionResult)
| Rejected (message : string).

Section Controller.

(** A chart object of the charting library. *)
Variable Chart : Type.

(** The fields of the application object, the document, the messages
    passed to [alert] and the messages of the errors passed to
    [console.error], oldest first. *)
Record App : Type := mkApp {
  currentFile : option File;
  emotionChart : option Chart;
  featureChart : option Chart;
  document : Document;
  alerts : list string;
  consoleErrors : list string
}.

(** [formatFileSize] goes through [Math.log] and [toFixed]; the controller
    takes it, [URL.createObjectURL] and [displayResults] as they are
    given. *)
Variable formatFileSize : Z -> string.
Variable createObjectURL : File -> string.
Variable displayResults : EmotionResult -> App -> App.

Definition with_document (f : Document -> Document) (a : App) : App :=
  mkApp (currentFile a) (emotionChart a) (featureChart a) (f (document a))
    (alerts a) (consoleErrors a).

(** The charts are destroyed in the charting library and forgotten here. *)
Definition resetUpload (a : App) : App :=
  let doc :=
    setProp "resultsSection" "style.display" (Text "none")
      (setProp "analyzeBtn" "disabled" (Flag true)
         (setProp "fileInfo" "textContent" (Text EmptyString)
            (setProp "uploadArea" "style.display" (Text "block")
               (setProp "audioPreview" "style.display" (Text "none")
                  (setProp "audioPlayer" "src" (Text EmptyString)
                     (setProp "audioFile" "value" (Text EmptyString)
                        (document a))))))) in
  mkApp None None None doc (alerts a) (consoleErrors a).

Definition showError (message : string) (a : App) : App :=
  resetUpload
    (mkApp (currentFile a) (emotionChart a) (featureChart a) (document a)
       (alerts a ++ [message]) (consoleErrors a)).

Definition maxFileSize : Z := 50 * 1024 * 1024.

Definition handleFile (file : File) (a : App) : App :=
  if negb (String.prefix "audio/" (file_type file)) then
    showError "请选择音频文件（MP3、WAV、M4A等格式）" a
  else if (file_size file >? maxFileSize)%Z then
    showError "文件大小不能超过50MB" a
  else
    let doc :=
      setProp "analyzeBtn" "disabled" (Flag false)
        (setProp "uploadArea" "style.display" (Text "none")
           (setProp "audioPreview" "style.display" (Text "flex")
              (setProp "audioPlayer" "src" (Text (createObjectURL file))
                 (setProp "fileInfo" "textContent"
                    (Text ("文件名: " ++ file_name file ++ " | 大小: "
                           ++ formatFileSize (file_size file)))
                    (document a))))) in
    mkApp (Some file) (emotionChart a) (featureChart a) doc
      (alerts a) (consoleErrors a).

(** [handleFileSelect] and the [drop] handler, on the list of files. *)
Definition handleFiles (files : list File) (a : App) : App :=
  match files with
  | file :: _ => handleFile file a
  | [] => a
  end.

(** [analyzeAudio], given how [analyzeAudioFile] settles on a file; no
    other event is handled while it waits. *)
Definition analyzeAudio (analyzeAudioFile : File -> Settled) (a : App) : App :=
  match currentFile a with
  | None => a
  | Some file =>
      let a1 :=
        with_document
          (fun doc =>
             setProp "resultsSection" "style.display" (Text "none")
               (setProp "loading" "style.display" (Text "block")
                  (setProp "analyzeBtn" "disabled" (Flag true) doc))) a in
      let a2 :=
        match analyzeAudioFile file with
        | Resolved result => displayResults result a1
        | Rejected message =>
            showError ("分析失败: " ++ message)
              (mkApp (currentFile a1) (emotionChart a1) (featureChart a1)
                 (document a1) (alerts a1)
                 (consoleErrors a1 ++ [message]))
        end in
      with_document
        (fun doc =>
           setProp "analyzeBtn" "disabled" (Flag false)
             (setProp "loading" "style.display" (Text "none") doc)) a2
  end.

End Controller.

Arguments currentFile {Chart} a.
Arguments emotionChart {Chart} a.
Arguments featureChart {Chart} a.
Arguments document {Chart} a.
Arguments alerts {Chart} a.
Arguments consoleErrors {Chart} a.
Arguments mkApp {Chart}.
Arguments resetUpload {Chart} a.
Arguments showError {Chart} message a.
Arguments handleFile {Chart} formatFileSize createObjectURL file a.
Arguments handleFiles {Chart} formatFileSize createObjectURL files a.
Arguments analyzeAudio {Chart} displayResults analyzeAudioFile a.

End SpeechEmotionApp.

(** ** Facts about numbers *)

(** Unfolds the operations of [num] and nothing of [Q]. *)
Ltac num_simpl :=
  cbn [add sub neg mul div lt gt Math_min Math_max Math_abs Math_floor
       Math_round Math_pow nonneg positive_num abs_sum within is_finite
       num_eq of_Z zero] in *.

Lemma lt_Fin (a b : Q) : (Fin a < Fin b)%js = true <-> a < b.
Proof.
  num_simpl. destruct (Qcompare_spec a b) as [H|H|H]; split; intros; try easy; lra.
Qed.

Lemma lt_Fin_false (a b : Q) : (Fin a < Fin b)%js = false <-> b <= a.
Proof.
  num_simpl. destruct (Qcompare_spec a b) as [H|H|H]; split; intros; try easy; lra.
Qed.

Lemma div_Fin_pos (a b : Q) : 0 < b -> (Fin a / Fin b)%js = Fin (Qred (a / b)).
Proof.
  intros Hb. num_simpl. destruct (Qcompare_spec b 0) as [H|H|H]; try reflexivity; lra.
Qed.

Lemma div_zero_zero (a b : Q) : a == 0 -> b == 0 -> (Fin a / Fin b)%js = NaN.
Proof.
  intros Ha Hb. num_simpl.
  destruct (Qcompare_spec b 0) as [H|H|H]; try lra.
  destruct (Qcompare_spec a 0) as [H'|H'|H']; try reflexivity; lra.
Qed.

Lemma of_Z_nonneg (z : Z) : (0 <= z)%Z -> nonneg (of_Z z).
Proof.
  intros H. num_simpl. rewrite Zle_Qle in H. exact H.
Qed.

Lemma nonneg_add (x y : num) : nonneg x -> nonneg y -> nonneg (x + y).
Proof.
  destruct x, y; num_simpl; try contradiction. intros. rewrite Qred_correct. lra.
Qed.

Lemma nonneg_mul (x y : num) : nonneg x -> nonneg y -> nonneg (x * y).
Proof.
  destruct x, y; num_simpl; try contradiction. intros. rewrite Qred_correct. nra.
Qed.

Lemma nonneg_div (x y : num) : nonneg x -> positive_num y -> nonneg (x / y).
Proof.
  destruct x as [a| | |], y as [b| | |]; num_simpl; try contradiction.
  intros Ha Hb. destruct (Qcompare_spec b 0) as [H|H|H]; try lra.
  num_simpl. rewrite Qred_correct. apply Qle_shift_div_l; lra.
Qed.

Lemma nonneg_abs (x : num) : is_finite x -> nonneg (Math_abs x).
Proof.
  destruct x; num_simpl; try contradiction. intros _. apply Qabs_nonneg.
Qed.

Lemma nonneg_square (x : num) : is_finite x -> nonneg (x * x).
Proof.
  destruct x; num_simpl; try contradiction. intros _. rewrite Qred_correct. nra.
Qed.

Lemma nonneg_finite (x : num) : nonneg x -> is_finite x.
Proof. destruct x; simpl; tauto. Qed.

Lemma abs_sum_abs (x : num) : abs_sum (Math_abs x).
Proof. destruct x; num_simpl; try exact I. apply Qabs_nonneg. Qed.

Lemma abs_sum_add (x y : num) : abs_sum x -> abs_sum y -> abs_sum (x + y).
Proof.
  destruct x, y; num_simpl; try tauto. intros. rewrite Qred_correct. lra.
Qed.

(** A finite sum has finite terms. *)
Lemma add_Fin_inv (x y : num) (t : Q) :
  (x + y)%js = Fin t -> exists a b, x = Fin a /\ y = Fin b /\ t == a + b.
Proof.
  destruct x as [a| | |], y as [b| | |]; num_simpl; try discriminate.
  intros H. exists a, b.
  assert (Ht : Qred (a + b) = t) by congruence.
  split; [reflexivity | split; [reflexivity |]].
  rewrite <- Ht. apply Qred_correct.
Qed.

(** ** Facts about the loops *)

Lemma for_index_invariant {S : Type} (P : S -> Prop) (Q : num -> Prop)
    (body : Z -> num -> S -> S) (lo : Z) :
  (forall i x st, (lo <= i)%Z -> Q x -> P st -> P (body i x st)) ->
  forall data i st,
    (lo <= i)%Z -> Forall Q data -> P st -> P (for_index body i data st).
Proof.
  intros Hbody data. induction data as [|x rest IH]; intros i st Hi Hall Hst.
  - exact Hst.
  - inversion Hall; subst. simpl. apply IH; [lia | assumption | auto].
Qed.

Lemma Forall_trivial {A : Type} (l : list A) : Forall (fun _ => True) l.
Proof. induction l; constructor; auto. Qed.

(** ** The analysis window *)

Lemma Qtrunc_inject_Z (z : Z) : Qtrunc (inject_Z z) = z.
Proof. unfold Qtrunc. simpl. apply Z.quot_1_r. Qed.

Lemma slice0_nonneg {A : Type} (l : list A) (z : Z) :
  (0 <= z)%Z ->
  slice0 l (of_Z z) = firstn (Z.to_nat (Z.min (Z.of_nat (length l)) z)) l.
Proof.
  intros Hz. unfold slice0, slice_end, of_Z. rewrite Qtrunc_inject_Z.
  destruct (Z.ltb_spec z 0) as [H|H]; [lia|]. now rewrite Z.min_comm.
Qed.

Lemma length_firstn_Z {A : Type} (l : list A) (z : Z) :
  (0 <= z)%Z ->
  Z.of_nat (length (firstn (Z.to_nat (Z.min (Z.of_nat (length l)) z)) l))
  = Z.min (Z.of_nat (length l)) z.
Proof.
  intros Hz. rewrite length_firstn. lia.
Qed.

Lemma round_half_even_nonneg (a : Z) (b : positive) :
  (0 <= a)%Z -> (0 <= round_half_even a b)%Z.
Proof.
  intros Ha. unfold round_half_even. cbv zeta.
  assert (Hq : (0 <= a / Z.pos b)%Z) by (apply Z.div_pos; lia).
  destruct (_ ?= _)%Z; [destruct (Z.even _)| |]; lia.
Qed.

Lemma round64_pos_nonneg (n d : positive) : nonneg_or_inf (round64_pos n d).
Proof.
  unfold round64_pos. cbv zeta.
  set (e := Z.max (Qlog2 n d - 52) (-1074)).
  set (m := if (0 <=? e)%Z then round_half_even (Z.pos n) (d * Z.to_pos (2 ^ e))
            else round_half_even (Z.pos n * 2 ^ (- e)) d).
  assert (Hm : (0 <= m)%Z).
  { unfold m. destruct (0 <=? e)%Z; apply round_half_even_nonneg; [lia|].
    apply Z.mul_nonneg_nonneg; [lia | apply Z.pow_nonneg; lia]. }
  destruct (971 <? e)%Z; [exact I|].
  destruct ((e =? 971)%Z && (m =? 2 ^ 53)%Z)%bool; [exact I|].
  destruct (Z.leb_spec 0 e) as [He|He]; cbn [nonneg_or_inf].
  - rewrite <- (Zle_Qle 0). apply Z.mul_nonneg_nonneg; [lia | apply Z.pow_nonneg; lia].
  - rewrite Qred_correct. unfold Qle. cbn [Qnum Qden]. lia.
Qed.

(** The rounded product of two numbers that are at least 0 is at least 0
    or [Infinity]. *)
Lemma mul64_nonneg (a b : Q) :
  0 <= a -> 0 <= b -> nonneg_or_inf (mul64 (Fin a) (Fin b)).
Proof.
  intros Ha Hb. unfold mul64, round64.
  assert (Hab : 0 <= Qred (a * b)) by (rewrite Qred_correct; nra).
  destruct (Qred (a * b)) as [n d]. cbn [Qnum Qden].
  destruct n as [|n|n].
  - cbn. lra.
  - apply round64_pos_nonneg.
  - exfalso. unfold Qle in Hab. cbn [Qnum Qden] in Hab. lia.
Qed.

Lemma Math_min_of_Z (a b : Z) : Math_min (of_Z a) (of_Z b) = of_Z (Z.min a b).
Proof.
  unfold Math_min, of_Z. destruct (lt (Fin (inject_Z b)) (Fin (inject_Z a))) eqn:E.
  - apply lt_Fin in E. rewrite <- Zlt_Qlt in E. now rewrite Z.min_r by lia.
  - apply lt_Fin_false in E. rewrite <- Zle_Qle in E. now rewrite Z.min_l by lia.
Qed.

(** What [slice] keeps when its end is the floor of a number that is at
    least 0 or [Infinity]: [Math.min(length, end)] samples from the start. *)
Lemma slice0_window {A : Type} (l : list A) (x : num) :
  nonneg_or_inf x ->
  exists w : Z,
    Math_min (len l) (Math_floor x) = of_Z w /\
    (0 <= w <= Z.of_nat (length l))%Z /\
    slice0 l (Math_floor x) = firstn (Z.to_nat w) l.
Proof.
  destruct x as [q| | |]; cbn [nonneg_or_inf]; try contradiction.
  - intros Hq. cbn [Math_floor].
    assert (Hk : (0 <= Qfloor q)%Z).
    { rewrite <- (Qfloor_Z 0). apply Qfloor_resp_le. exact Hq. }
    exists (Z.min (Z.of_nat (length l)) (Qfloor q)).
    split; [apply Math_min_of_Z|]. split; [lia|]. now apply slice0_nonneg.
  - intros _. cbn [Math_floor]. exists (Z.of_nat (length l)).
    split; [reflexivity|]. split; [lia|].
    unfold slice0, slice_end. reflexivity.
Qed.

(** The window of a buffer whose duration and sample rate are finite and
    at least 0. *)
Lemma analysisData_window (b : AudioBuffer) (d r : Q) :
  ab_duration b = Fin d -> ab_sampleRate b = Fin r -> 0 <= d -> 0 <= r ->
  exists w : Z,
    Math_min (len (ab_channel0 b))
      (Math_floor (mul64 (Math_min (Fin d) (Fin 30)) (Fin r))) = of_Z w /\
    (0 <= w <= Z.of_nat (length (ab_channel0 b)))%Z /\
    analysisData b = firstn (Z.to_nat w) (ab_channel0 b).
Proof.
  intros Hd Hr Hdpos Hrpos.
  unfold analysisData, totalSamples, getChannelData0, maxDuration.
  rewrite Hd, Hr. apply slice0_window.
  unfold Math_min. destruct (lt (Fin 30) (Fin d)); apply mul64_nonneg; lra.
Qed.

(** ** The zero-crossing rate *)

Lemma crossings_from_bounds (rest : list num) : forall prev count,
  (count <= crossings_from prev rest count <= count + Z.of_nat (length rest))%Z.
Proof.
  induction rest as [|x rest IH]; intros prev count; simpl crossings_from.
  - simpl. lia.
  - destruct (lt (prev * x) zero);
      [specialize (IH x (count + 1)%Z) | specialize (IH x count)];
      simpl length; lia.
Qed.

Lemma zeroCrossings_bounds (data : list num) :
  data <> [] ->
  (0 <= zeroCrossings data <= Z.of_nat (length data) - 1)%Z.
Proof.
  destruct data as [|x rest]; [congruence|]. intros _.
  unfold zeroCrossings. pose proof (crossings_from_bounds rest x 0%Z).
  simpl length. lia.
Qed.

Lemma zcr_value (data : list num) :
  data <> [] ->
  exists q, (of_Z (zeroCrossings data) / len data)%js = Fin q /\ 0 <= q < 1.
Proof.
  intros Hne. pose proof (zeroCrossings_bounds data Hne) as [Hlo Hhi].
  assert (Hn : 0 < inject_Z (Z.of_nat (length data))).
  { rewrite <- (Zlt_Qlt 0). lia. }
  unfold len, of_Z. rewrite div_Fin_pos by exact Hn.
  eexists. split; [reflexivity|]. rewrite Qred_correct. split.
  - apply Qle_shift_div_l; [exact Hn|]. rewrite Qmult_0_l.
    rewrite <- (Zle_Qle 0). exact Hlo.
  - apply Qlt_shift_div_r; [exact Hn|]. rewrite Qmult_1_l.
    rewrite <- Zlt_Qlt. lia.
Qed.

(** ** Energy banding *)

Lemma energies_abs_sum (data : list num) :
  abs_sum (lowFreqEnergy (energies data)) /\
  abs_sum (midFreqEnergy (energies data)) /\
  abs_sum (highFreqEnergy (energies data)).
Proof.
  unfold energies.
  apply (for_index_invariant
           (fun e => abs_sum (lowFreqEnergy e) /\ abs_sum (midFreqEnergy e) /\
                     abs_sum (highFreqEnergy e))
           (fun _ => True) _ 0%Z).
  - intros i x e _ _ (Hl & Hm & Hh). unfold energy_step.
    pose proof (abs_sum_abs x).
    destruct (i <? _)%Z; [|destruct (i <? _)%Z]; cbn [lowFreqEnergy midFreqEnergy
      highFreqEnergy]; repeat split; auto using abs_sum_add.
  - lia.
  - apply Forall_trivial.
  - cbn. repeat split; lra.
Qed.

Lemma energies_nonneg (data : list num) :
  Forall is_finite data ->
  nonneg (lowFreqEnergy (energies data)) /\
  nonneg (midFreqEnergy (energies data)) /\
  nonneg (highFreqEnergy (energies data)).
Proof.
  intros Hfin. unfold energies.
  apply (for_index_invariant
           (fun e => nonneg (lowFreqEnergy e) /\ nonneg (midFreqEnergy e) /\
                     nonneg (highFreqEnergy e))
           is_finite _ 0%Z).
  - intros i x e _ Hx (Hl & Hm & Hh). unfold energy_step.
    pose proof (nonneg_abs x Hx).
    destruct (i <? _)%Z; [|destruct (i <? _)%Z]; cbn [lowFreqEnergy midFreqEnergy
      highFreqEnergy]; repeat split; auto using nonneg_add.
  - lia.
  - exact Hfin.
  - cbn. repeat split; lra.
Qed.

Lemma spectral_ratios (data : list num) :
  sf_lowFreqRatio (calculateSpectralFeatures data)
  = (lowFreqEnergy (energies data) / totalEnergy data)%js /\
  sf_highFreqRatio (calculateSpectralFeatures data)
  = (highFreqEnergy (energies data) / totalEnergy data)%js.
Proof.
  unfold calculateSpectralFeatures, totalEnergy.
  destruct (centroid_sums data). split; reflexivity.
Qed.

(** The energies of a window whose total energy is a finite [t]. *)
Lemma totalEnergy_Fin_inv (data : list num) (t : Q) :
  totalEnergy data = Fin t ->
  exists l m h,
    lowFreqEnergy (energies data) = Fin l /\
    midFreqEnergy (energies data) = Fin m /\
    highFreqEnergy (energies data) = Fin h /\
    0 <= l /\ 0 <= m /\ 0 <= h /\ t == l + m + h.
Proof.
  unfold totalEnergy. cbv zeta. intros H.
  destruct (energies_abs_sum data) as (Hl & Hm & Hh).
  apply add_Fin_inv in H. destruct H as (lm & h & Hlm & Eh & Et).
  apply add_Fin_inv in Hlm. destruct Hlm as (l & m & El & Em & Elm).
  rewrite El in Hl. rewrite Em in Hm. rewrite Eh in Hh. num_simpl.
  exists l, m, h. repeat (split; [assumption|]). rewrite Et, Elm. reflexivity.
Qed.

(** Without energy both ratios are [0/0]. *)
Lemma silent_ratios (data : list num) :
  (totalEnergy data == zero)%js ->
  sf_lowFreqRatio (calculateSpectralFeatures data) = NaN /\
  sf_highFreqRatio (calculateSpectralFeatures data) = NaN.
Proof.
  intros H. destruct (spectral_ratios data) as [-> ->].
  destruct (totalEnergy data) as [t| | |] eqn:E; num_simpl; try contradiction.
  destruct (totalEnergy_Fin_inv data t E)
    as (l & m & h & -> & _ & -> & Hl & Hm & Hh & Et).
  split; apply div_zero_zero; lra.
Qed.

(** With energy both ratios lie between 0 and 1. *)
Lemma voiced_ratios (data : list num) :
  positive_num (totalEnergy data) ->
  within 0 1 (sf_lowFreqRatio (calculateSpectralFeatures data)) /\
  within 0 1 (sf_highFreqRatio (calculateSpectralFeatures data)).
Proof.
  intros H. destruct (spectral_ratios data) as [-> ->].
  destruct (totalEnergy data) as [t| | |] eqn:E; num_simpl; try contradiction.
  destruct (totalEnergy_Fin_inv data t E)
    as (l & m & h & -> & _ & -> & Hl & Hm & Hh & Et).
  rewrite !div_Fin_pos by exact H. num_simpl. rewrite !Qred_correct.
  repeat split.
  - apply Qle_shift_div_l; lra.
  - apply Qle_shift_div_r; lra.
  - apply Qle_shift_div_l; lra.
  - apply Qle_shift_div_r; lra.
Qed.

(** ** Centroid, RMS and variance *)

Lemma firstn_Forall {A : Type} (P : A -> Prop) (n : nat) (l : list A) :
  Forall P l -> Forall P (firstn n l).
Proof.
  revert n. induction l as [|x l IH]; intros [|n] H; simpl; try constructor.
  - inversion H; assumption.
  - inversion H; auto.
Qed.

Lemma centroid_sums_nonneg (data : list num) :
  Forall is_finite data ->
  nonneg (fst (centroid_sums data)) /\ nonneg (snd (centroid_sums data)).
Proof.
  intros Hfin. unfold centroid_sums.
  apply (for_index_invariant (fun st => nonneg (fst st) /\ nonneg (snd st))
           is_finite _ 0%Z).
  - intros i x [ws s] Hi Hx [Hws Hs]. unfold centroid_step. cbn [fst snd] in *.
    pose proof (nonneg_abs x Hx). pose proof (of_Z_nonneg i Hi).
    split; auto using nonneg_add, nonneg_mul.
  - lia.
  - apply firstn_Forall. exact Hfin.
  - cbn. split; lra.
Qed.

Lemma spectralCentroid_nonneg (data : list num) :
  Forall is_finite data ->
  nonneg (sf_spectralCentroid (calculateSpectralFeatures data)).
Proof.
  intros Hfin. pose proof (centroid_sums_nonneg data Hfin) as [Hws Hs].
  unfold calculateSpectralFeatures.
  destruct (centroid_sums data) as [ws s]. cbn [fst snd sf_spectralCentroid] in *.
  destruct (gt s zero) eqn:E.
  - apply nonneg_div; [exact Hws|].
    destruct s; num_simpl; try contradiction. apply lt_Fin in E. exact E.
  - cbn. lra.
Qed.

Lemma sumSquares_nonneg (data : list num) :
  Forall is_finite data -> nonneg (sumSquares data).
Proof.
  intros Hfin. unfold sumSquares.
  apply (for_index_invariant nonneg is_finite _ 0%Z); try assumption; try lia.
  - intros i x st _ Hx Hst. auto using nonneg_add, nonneg_square.
  - cbn. lra.
Qed.

Lemma len_positive {A : Type} (l : list A) : l <> [] -> positive_num (len l).
Proof.
  destruct l; [congruence|]. intros _. unfold len. num_simpl.
  rewrite <- (Zlt_Qlt 0). simpl length. lia.
Qed.

Lemma Qsqrt_nonneg (q : Q) : 0 <= q -> 0 <= Qsqrt q.
Proof.
  intros Hq. unfold Qsqrt. cbv zeta. rewrite Qred_correct.
  destruct (_ =? _)%Z; unfold Qle; simpl; rewrite Z.mul_1_r; apply Z.sqrt_nonneg.
Qed.

Lemma Math_sqrt_nonneg (x : num) : nonneg x -> nonneg (Math_sqrt x).
Proof.
  destruct x as [q| | |]; num_simpl; try contradiction. intros Hq.
  unfold Math_sqrt. destruct (Qcompare_spec q 0); try lra; num_simpl;
    now apply Qsqrt_nonneg.
Qed.

Lemma square_term_nonneg (x mean : num) :
  is_finite x -> is_finite mean -> nonneg (Math_pow (x - mean) 2).
Proof.
  destruct x, mean; num_simpl; try contradiction. intros _ _.
  rewrite !Qred_correct, Qmult_1_r. generalize (q + - q0). intros d. nra.
Qed.

Lemma calculateVariance_nonneg (data : list num) (mean : num) :
  data <> [] -> Forall is_finite data -> is_finite mean ->
  nonneg (calculateVariance data mean).
Proof.
  intros Hne Hfin Hmean. unfold calculateVariance.
  apply nonneg_div; [|now apply len_positive].
  apply (for_index_invariant nonneg is_finite _ 0%Z); try assumption; try lia.
  - intros i x st _ Hx Hst. auto using nonneg_add, square_term_nonneg.
  - cbn. lra.
Qed.

(** The features of a non-empty window of finite samples with energy. *)
Lemma features_of_voiced_window (b : AudioBuffer) :
  analysisData b <> [] ->
  Forall is_finite (analysisData b) ->
  positive_num (totalEnergy (analysisData b)) ->
  nonneg (rms (extractAudioFeatures b)) /\
  nonneg (rmsVariance (extractAudioFeatures b)) /\
  within 0 1 (zcr (extractAudioFeatures b)) /\
  within 0 1 (lowFreqRatio (extractAudioFeatures b)) /\
  within 0 1 (highFreqRatio (extractAudioFeatures b)) /\
  nonneg (spectralCentroid (extractAudioFeatures b)).
Proof.
  intros Hne Hfin Hpos. unfold extractAudioFeatures. cbv zeta.
  cbn [rms rmsVariance zcr lowFreqRatio highFreqRatio spectralCentroid].
  set (data := analysisData b) in *.
  assert (Hrms : nonneg (Math_sqrt (sumSquares data / len data))).
  { apply Math_sqrt_nonneg, nonneg_div;
      [now apply sumSquares_nonneg | now apply len_positive]. }
  destruct (voiced_ratios data Hpos) as [Hlow Hhigh].
  destruct (zcr_value data Hne) as (q & -> & Hq).
  repeat split; try assumption; try (num_simpl; lra).
  - apply calculateVariance_nonneg; auto using nonneg_finite.
  - now apply spectralCentroid_nonneg.
Qed.

(** ** Rounding, minimum and maximum *)

Lemma Math_max_Fin (a b : Q) :
  exists m, Math_max (Fin a) (Fin b) = Fin m /\ m == Qmax a b.
Proof.
  unfold Math_max. destruct (lt (Fin a) (Fin b)) eqn:E.
  - apply lt_Fin in E. exists b. split; [reflexivity|].
    symmetry. apply Q.max_r. lra.
  - apply lt_Fin_false in E. exists a. split; [reflexivity|].
    symmetry. apply Q.max_l. exact E.
Qed.

Lemma Math_min_Fin (a b : Q) :
  exists m, Math_min (Fin a) (Fin b) = Fin m /\ m == Qmin a b.
Proof.
  unfold Math_min. destruct (lt (Fin b) (Fin a)) eqn:E.
  - apply lt_Fin in E. exists b. split; [reflexivity|].
    symmetry. apply Q.min_r. lra.
  - apply lt_Fin_false in E. exists a. split; [reflexivity|].
    symmetry. apply Q.min_l. exact E.
Qed.

Lemma inject_Z_le_half (a b : Z) :
  inject_Z a <= inject_Z b + (1 # 2) -> (a <= b)%Z.
Proof.
  intros H. destruct (Z_le_gt_dec a b) as [Hle|Hgt]; [exact Hle|].
  assert (Hb : (b + 1 <= a)%Z) by lia.
  rewrite Zle_Qle, inject_Z_plus in Hb. change (inject_Z 1) with 1 in Hb. lra.
Qed.

Lemma inject_Z_lt_inv (a b : Z) : inject_Z a < inject_Z b -> (a < b)%Z.
Proof. intros H. now rewrite Zlt_Qlt. Qed.

(** [Math.round] is within one half of its argument. *)
Lemma round_near (q : Q) :
  q - (1 # 2) < inject_Z (Qfloor (q + (1 # 2))) <= q + (1 # 2).
Proof.
  pose proof (Qfloor_le (q + (1 # 2))).
  pose proof (Qlt_floor (q + (1 # 2))) as Hlt.
  rewrite inject_Z_plus in Hlt. change (inject_Z 1) with 1 in Hlt.
  split; lra.
Qed.

(** [Math.round] keeps a value between two integers between them. *)
Lemma Math_round_within (lo hi : Z) (x : num) :
  within (inject_Z lo) (inject_Z hi) x ->
  within (inject_Z lo) (inject_Z hi) (Math_round x).
Proof.
  destruct x as [q| | |]; num_simpl; try contradiction. intros [Hlo Hhi].
  pose proof (round_near q) as [H1 H2].
  split; rewrite <- Zle_Qle.
  - assert ((lo < Qfloor (q + (1 # 2)) + 1)%Z); [|lia].
    apply inject_Z_lt_inv. rewrite inject_Z_plus. change (inject_Z 1) with 1. lra.
  - apply inject_Z_le_half. lra.
Qed.

(** Rounding after the cap at 100 is the cap at 100 after rounding. *)
Lemma round_min_100 (x : num) :
  Math_round (Math_min (Fin 100) x) = Math_min (Fin 100) (Math_round x).
Proof.
  destruct x as [q| | |]; try reflexivity.
  pose proof (round_near q) as [H1 H2].
  unfold Math_min at 1. destruct (lt (Fin q) (Fin 100)) eqn:E.
  - apply lt_Fin in E. cbn [Math_round]. unfold Math_min, of_Z.
    destruct (lt _ _) eqn:E'; [reflexivity|].
    apply lt_Fin_false in E'. change 100 with (inject_Z 100) in E'.
    rewrite <- Zle_Qle in E'.
    assert (Hle : (Qfloor (q + (1 # 2)) <= 100)%Z).
    { apply inject_Z_le_half. change (inject_Z 100) with 100. lra. }
    replace (Qfloor (q + (1 # 2))) with 100%Z by lia. reflexivity.
  - apply lt_Fin_false in E. change (Math_round (Fin 100)) with (Fin 100).
    cbn [Math_round]. unfold Math_min, of_Z.
    destruct (lt _ _) eqn:E'; [|reflexivity].
    apply lt_Fin in E'. change 100 with (inject_Z 100) in E'.
    apply inject_Z_lt_inv in E'.
    assert ((100 < Qfloor (q + (1 # 2)) + 1)%Z); [|lia].
    apply inject_Z_lt_inv. rewrite inject_Z_plus.
    change (inject_Z 1) with 1. change (inject_Z 100) with 100. lra.
Qed.

(** ** Emotion scores *)

(** The raw scores of finite features are the formulas of the scorer. *)
Lemma rawScores_Fin (f : AudioFeatures) (v z c h : Q) :
  rmsVariance f = Fin v -> zcr f = Fin z ->
  spectralCentroid f = Fin c -> highFreqRatio f = Fin h ->
  exists C T A E,
    rawScores f = mkEmotionScores (Fin C) (Fin T) (Fin A) (Fin E) /\
    C == Qmax 0 (100 - v * 1000 - z * 500) /\
    T == Qmin 100 (z * 800 + v * 600) /\
    A == Qmin 100 (c * 50 + h * 200) /\
    E == Qmin 100 ((v + z) * 400).
Proof.
  intros Hv Hz Hc Hh. unfold rawScores, zero. rewrite Hv, Hz, Hc, Hh.
  cbn [add sub neg mul].
  match goal with |- context [Math_max (Fin ?a) (Fin ?b)] =>
    destruct (Math_max_Fin a b) as (C & -> & HC) end.
  match goal with |- context [mkEmotionScores _ (Math_min (Fin ?a) (Fin ?b))] =>
    destruct (Math_min_Fin a b) as (T & -> & HT) end.
  match goal with |- context [mkEmotionScores _ _ (Math_min (Fin ?a) (Fin ?b))] =>
    destruct (Math_min_Fin a b) as (A & -> & HA) end.
  match goal with |- context [Math_min (Fin ?a) (Fin ?b)] =>
    destruct (Math_min_Fin a b) as (E & -> & HE) end.
  exists C, T, A, E. split; [reflexivity|].
  rewrite HC, HT, HA, HE, !Qred_correct. repeat split; reflexivity.
Qed.

Lemma scoreTotal_Fin (C T A E : Q) :
  exists t, scoreTotal (mkEmotionScores (Fin C) (Fin T) (Fin A) (Fin E)) = Fin t /\
            t == C + T + A + E.
Proof.
  eexists. split; [reflexivity|]. rewrite !Qred_correct. ring.
Qed.

(** A finite total has finite scores. *)
Lemma scoreTotal_Fin_inv (s : EmotionScores) (t : Q) :
  scoreTotal s = Fin t ->
  exists C T A E,
    s = mkEmotionScores (Fin C) (Fin T) (Fin A) (Fin E) /\ t == C + T + A + E.
Proof.
  destruct s as [c te a e]. unfold scoreTotal. cbn [fold_left calm tense angry excited].
  intros H.
  apply add_Fin_inv in H. destruct H as (x3 & E & H3 & -> & Ht).
  apply add_Fin_inv in H3. destruct H3 as (x2 & A & H2 & -> & Ht3).
  apply add_Fin_inv in H2. destruct H2 as (x1 & T & H1 & -> & Ht2).
  apply add_Fin_inv in H1. destruct H1 as (x0 & C & H0 & -> & Ht1).
  injection H0 as <-.
  exists C, T, A, E. split; [reflexivity|]. lra.
Qed.

Lemma normalize_Fin (t s : Q) :
  0 < t -> normalize (Fin t) (Fin s) = of_Z (Qfloor (s / t * 100 + (1 # 2))).
Proof.
  intros Ht. unfold normalize. rewrite div_Fin_pos by exact Ht.
  cbn [mul Math_round]. f_equal. apply Qfloor_comp.
  rewrite !Qred_correct. reflexivity.
Qed.

Lemma normalize_within (t s : Q) :
  0 < t -> 0 <= s <= t -> within 0 100 (normalize (Fin t) (Fin s)).
Proof.
  intros Ht [Hs0 Hst]. unfold normalize. rewrite div_Fin_pos by exact Ht.
  apply (Math_round_within 0 100). cbn [mul within]. rewrite !Qred_correct.
  assert (0 <= s / t) by (apply Qle_shift_div_l; lra).
  assert (s / t <= 1) by (apply Qle_shift_div_r; lra).
  change (inject_Z 0) with 0. change (inject_Z 100) with 100. split; lra.
Qed.

(** The shares of the four scores in their total add up to 1. *)
Lemma shares_sum (C T A E t : Q) :
  0 < t -> t == C + T + A + E -> C / t + T / t + A / t + E / t == 1.
Proof.
  intros Ht Hsum. rewrite Hsum in *. field. lra.
Qed.

Lemma scoreTotal_of_Z (a b c d : Z) :
  exists t, scoreTotal (mkEmotionScores (of_Z a) (of_Z b) (of_Z c) (of_Z d)) = Fin t /\
            t == inject_Z a + inject_Z b + inject_Z c + inject_Z d.
Proof. apply scoreTotal_Fin. Qed.

(** The rounded percentages of a finite positive total add up to an
    integer between 98 and 102. *)
Lemma normalized_sum (s : EmotionScores) (t : Q) :
  scoreTotal s = Fin t -> 0 < t ->
  within 98 102 (scoreTotal (normalizeScores s)).
Proof.
  intros Htot Ht.
  destruct (scoreTotal_Fin_inv s t Htot) as (C & T & A & E & -> & Hsum).
  unfold normalizeScores. rewrite Htot. cbn [calm tense angry excited].
  rewrite !normalize_Fin by exact Ht.
  destruct (scoreTotal_of_Z (Qfloor (C / t * 100 + (1 # 2)))
              (Qfloor (T / t * 100 + (1 # 2))) (Qfloor (A / t * 100 + (1 # 2)))
              (Qfloor (E / t * 100 + (1 # 2)))) as (n & -> & Hn).
  cbn [within]. rewrite Hn.
  pose proof (shares_sum C T A E t Ht Hsum).
  pose proof (round_near (C / t * 100)). pose proof (round_near (T / t * 100)).
  pose proof (round_near (A / t * 100)). pose proof (round_near (E / t * 100)).
  split; lra.
Qed.

(** The raw scores of finite non-negative features: each between 0 and
    100, and [tense] at least 60 whenever [calm] is 0. *)
Lemma rawScores_nonneg_features (f : AudioFeatures) :
  nonneg (rmsVariance f) -> nonneg (zcr f) ->
  nonneg (spectralCentroid f) -> nonneg (highFreqRatio f) ->
  exists v z C T A E,
    rmsVariance f = Fin v /\ zcr f = Fin z /\
    rawScores f = mkEmotionScores (Fin C) (Fin T) (Fin A) (Fin E) /\
    0 <= C <= 100 /\ 0 <= T <= 100 /\ 0 <= A <= 100 /\ 0 <= E <= 100 /\
    (C == 0 -> 100 <= v * 1000 + z * 500 /\ 60 <= T).
Proof.
  intros Hv Hz Hc Hh.
  destruct (rmsVariance f) as [v| | |] eqn:Ev; try contradiction.
  destruct (zcr f) as [z| | |] eqn:Ez; try contradiction.
  destruct (spectralCentroid f) as [c| | |] eqn:Ec; try contradiction.
  destruct (highFreqRatio f) as [h| | |] eqn:Eh; try contradiction.
  cbn [nonneg] in *.
  destruct (rawScores_Fin f v z c h Ev Ez Ec Eh)
    as (C & T & A & E & -> & HC & HT & HA & HE).
  exists v, z, C, T, A, E.
  destruct (Q.max_spec 0 (100 - v * 1000 - z * 500)) as [[? HC']|[? HC']];
  destruct (Q.min_spec 100 (z * 800 + v * 600)) as [[? HT']|[? HT']];
  destruct (Q.min_spec 100 (c * 50 + h * 200)) as [[? HA']|[? HA']];
  destruct (Q.min_spec 100 ((v + z) * 400)) as [[? HE']|[? HE']];
  rewrite HC' in HC; rewrite HT' in HT; rewrite HA' in HA; rewrite HE' in HE;
  repeat split; try reflexivity; try lra; intros; lra.
Qed.

(** The weighted sum of percentages between 0 and 100, capped and rounded. *)
Lemma risk_within (s : EmotionScores) :
  within 0 100 (tense s) -> within 0 100 (angry s) -> within 0 100 (excited s) ->
  within 0 100 (Math_round (Math_min (Fin 100) (riskSum s))).
Proof.
  destruct s as [c t a e]. cbn [tense angry excited]. intros Ht Ha He.
  destruct t as [t| | |], a as [a| | |], e as [e| | |]; try contradiction.
  cbn [within] in *. unfold riskSum. cbn [tense angry excited add mul].
  apply (Math_round_within 0 100).
  match goal with |- within _ _ (Math_min _ (Fin ?q)) =>
    destruct (Math_min_Fin 100 q) as (m & -> & Hm);
    destruct (Q.min_spec 100 q) as [[? Hm']|[? Hm']]; rewrite Hm' in Hm;
    rewrite !Qred_correct in *
  end; cbn [within]; change (inject_Z 0) with 0; change (inject_Z 100) with 100;
    split; lra.
Qed.

Lemma rawScores_total_positive (f : AudioFeatures) :
  nonneg (rmsVariance f) -> nonneg (zcr f) ->
  nonneg (spectralCentroid f) -> nonneg (highFreqRatio f) ->
  positive_num (scoreTotal (rawScores f)).
Proof.
  intros Hv Hz Hc Hh.
  destruct (rawScores_nonneg_features f Hv Hz Hc Hh)
    as (v & z & C & T & A & E & _ & _ & -> & HC & HT & HA & HE & Hcalm).
  destruct (scoreTotal_Fin C T A E) as (t & -> & Ht). cbn [positive_num].
  destruct (Qlt_le_dec 0 C) as [Hpos|Hzero]; [lra|].
  assert (C == 0) as H0 by lra. destruct (Hcalm H0). lra.
Qed.

Lemma normalizeScores_within (C T A E : Q) :
  0 <= C -> 0 <= T -> 0 <= A -> 0 <= E -> 0 < C + T + A + E ->
  let s := normalizeScores (mkEmotionScores (Fin C) (Fin T) (Fin A) (Fin E)) in
  within 0 100 (calm s) /\ within 0 100 (tense s) /\
  within 0 100 (angry s) /\ within 0 100 (excited s).
Proof.
  intros HC HT HA HE Hpos. unfold normalizeScores.
  destruct (scoreTotal_Fin C T A E) as (t & -> & Ht).
  cbn [calm tense angry excited].
  repeat split; apply normalize_within; lra.
Qed.

(** The scores and the risk of finite non-negative features. *)
Lemma calculateEmotion_within (now : string) (f : AudioFeatures) (d : num) :
  nonneg (rmsVariance f) -> nonneg (zcr f) ->
  nonneg (spectralCentroid f) -> nonneg (highFreqRatio f) ->
  let r := calculateEmotion now f d in
  within 0 100 (calm (emotions r)) /\ within 0 100 (tense (emotions r)) /\
  within 0 100 (angry (emotions r)) /\ within 0 100 (excited (emotions r)) /\
  within 0 100 (conflictRisk r).
Proof.
  intros Hv Hz Hc Hh.
  pose proof (rawScores_total_positive f Hv Hz Hc Hh) as Hpos.
  destruct (rawScores_nonneg_features f Hv Hz Hc Hh)
    as (v & z & C & T & A & E & _ & _ & Hraw & HC & HT & HA & HE & _).
  change (let s := normalizeScores (rawScores f) in
          within 0 100 (calm s) /\ within 0 100 (tense s) /\
          within 0 100 (angry s) /\ within 0 100 (excited s) /\
          within 0 100 (Math_round (Math_min (Fin 100) (riskSum s)))).
  rewrite Hraw in Hpos |- *.
  destruct (scoreTotal_Fin C T A E) as (t & Et & Ht).
  rewrite Et in Hpos. cbn [positive_num] in Hpos.
  assert (Hsum : 0 < C + T + A + E) by lra.
  pose proof (normalizeScores_within C T A E (proj1 HC) (proj1 HT) (proj1 HA)
                (proj1 HE) Hsum) as H.
  cbv zeta in H |- *. destruct H as (H1 & H2 & H3 & H4).
  refine (conj H1 (conj H2 (conj H3 (conj H4 _)))).
  apply risk_within; assumption.
Qed.

(** ** The properties of the specification *)

(** C1.  The code's behaviour on a window without energy: the total
    absolute amplitude is 0, both ratios are the quotient [0/0], and the code
    returns NaN for [lowFreqRatio] and [highFreqRatio], in both revisions of
    the class.  The centroid, guarded by [sum > 0], is 0. *)
Theorem silent_window_ratios_NaN (b : AudioBuffer) :
  (totalEnergy (analysisData b) == zero)%js ->
  lowFreqRatio (extractAudioFeatures b) = NaN /\
  highFreqRatio (extractAudioFeatures b) = NaN /\
  Revision1.lowFreqRatio (analysisData b) = NaN /\
  Revision1.highFreqRatio (analysisData b) = NaN.
Proof.
  intros H. destruct (silent_ratios (analysisData b) H) as [Hl Hh].
  destruct (spectral_ratios (analysisData b)) as [El Eh].
  unfold extractAudioFeatures. cbv zeta. cbn [lowFreqRatio highFreqRatio].
  unfold Revision1.lowFreqRatio, Revision1.highFreqRatio. cbv zeta.
  fold (totalEnergy (analysisData b)).
  rewrite <- El, <- Eh. auto.
Qed.

Lemma silent_window_ratios_NaN_witness :
  (totalEnergy (analysisData silence1000) == zero)%js /\
  lowFreqRatio (extractAudioFeatures silence1000) = NaN /\
  highFreqRatio (extractAudioFeatures silence1000) = NaN /\
  spectralCentroid (extractAudioFeatures silence1000) = zero.
Proof.
  assert (H : (totalEnergy (analysisData silence1000) == zero)%js)
    by (vm_compute; reflexivity).
  destruct (silent_window_ratios_NaN silence1000 H) as (Hl & Hh & _).
  split; [exact H|]. split; [exact Hl|]. split; [exact Hh|].
  vm_compute. reflexivity.
Defined.

(** C2, as stated, fails: on a buffer without samples the call does not
    fail with [EmptyInput]. *)
Lemma empty_input_does_not_fail :
  ~ (extract_completion emptyBuffer = Throw EmptyInput <->
     ab_channel0 emptyBuffer = []).
Proof.
  intros [_ H]. specialize (H eq_refl). discriminate H.
Qed.

(** C2, amended.  [extractAudioFeatures] never fails: for every buffer,
    empty or not, it returns a record; for a buffer without samples the
    record has NaN for [rms], [rmsVariance], [zcr] and both ratios, and 0 for
    the centroid. *)
Theorem extract_never_fails :
  (forall b : AudioBuffer,
     extract_completion b = Normal (extractAudioFeatures b) /\
     forall e, extract_completion b <> Throw e) /\
  (forall d r : num,
     extract_completion (mkAudioBuffer d r [])
     = Normal (mkAudioFeatures (Math_min d maxDuration) r NaN NaN NaN NaN NaN zero)).
Proof.
  split.
  - intros b. split; [reflexivity|]. intros e H. discriminate H.
  - intros d r. unfold extract_completion, extractAudioFeatures. cbv zeta.
    unfold analysisData, slice0, getChannelData0. cbn [ab_channel0 ab_duration
      ab_sampleRate]. rewrite firstn_nil. reflexivity.
Qed.

(** C3, as stated, fails: for a buffer without samples the outputs are
    NaN, so they are not all within their bounds. *)
Lemma empty_window_breaks_bounds :
  ~ (within 0 100 (calm (emotions (analyze morning emptyBuffer))) /\
     within 0 100 (tense (emotions (analyze morning emptyBuffer))) /\
     within 0 100 (angry (emotions (analyze morning emptyBuffer))) /\
     within 0 100 (excited (emotions (analyze morning emptyBuffer))) /\
     within 0 100 (conflictRisk (analyze morning emptyBuffer)) /\
     within 0 1 (zcr (extractAudioFeatures emptyBuffer)) /\
     within 0 1 (lowFreqRatio (extractAudioFeatures emptyBuffer)) /\
     within 0 1 (highFreqRatio (extractAudioFeatures emptyBuffer))).
Proof.
  intros (_ & _ & _ & _ & _ & Hzcr & _).
  assert (E : zcr (extractAudioFeatures emptyBuffer) = NaN) by reflexivity.
  rewrite E in Hzcr. exact Hzcr.
Qed.

(** C3, amended.  For every buffer whose analysis window is non-empty, has
    only finite samples and has a total absolute amplitude above 0, the four
    percentages and the risk are between 0 and 100, and [zcr] and the two
    ratios are between 0 and 1. *)
Theorem bounds_of_voiced_window (now : string) (b : AudioBuffer) :
  analysisData b <> [] ->
  Forall is_finite (analysisData b) ->
  positive_num (totalEnergy (analysisData b)) ->
  let f := extractAudioFeatures b in
  let r := analyze now b in
  within 0 100 (calm (emotions r)) /\ within 0 100 (tense (emotions r)) /\
  within 0 100 (angry (emotions r)) /\ within 0 100 (excited (emotions r)) /\
  within 0 100 (conflictRisk r) /\
  within 0 1 (zcr f) /\ within 0 1 (lowFreqRatio f) /\ within 0 1 (highFreqRatio f).
Proof.
  intros Hne Hfin Hpos. cbv zeta.
  destruct (features_of_voiced_window b Hne Hfin Hpos)
    as (_ & Hv & Hz & Hl & Hh & Hc).
  assert (Hz' : nonneg (zcr (extractAudioFeatures b))).
  { destruct (zcr (extractAudioFeatures b)); cbn [within nonneg] in *; tauto. }
  assert (Hh' : nonneg (highFreqRatio (extractAudioFeatures b))).
  { destruct (highFreqRatio (extractAudioFeatures b)); cbn [within nonneg] in *; tauto. }
  pose proof (calculateEmotion_within now (extractAudioFeatures b)
                (ab_duration b) Hv Hz' Hc Hh') as H.
  cbv zeta in H. unfold analyze. cbv zeta. tauto.
Qed.

Lemma bounds_of_voiced_window_witness :
  (analysisData alternating4 <> [] /\
   Forall is_finite (analysisData alternating4) /\
   positive_num (totalEnergy (analysisData alternating4))) /\
  within 0 100 (calm (emotions (analyze morning alternating4))) /\
  within 0 100 (tense (emotions (analyze morning alternating4))) /\
  within 0 100 (angry (emotions (analyze morning alternating4))) /\
  within 0 100 (excited (emotions (analyze morning alternating4))) /\
  within 0 100 (conflictRisk (analyze morning alternating4)) /\
  within 0 1 (zcr (extractAudioFeatures alternating4)) /\
  within 0 1 (lowFreqRatio (extractAudioFeatures alternating4)) /\
  within 0 1 (highFreqRatio (extractAudioFeatures alternating4)).
Proof.
  assert (H1 : analysisData alternating4 <> []) by (vm_compute; discriminate).
  assert (H2 : Forall is_finite (analysisData alternating4))
    by (vm_compute; repeat constructor).
  assert (H3 : positive_num (totalEnergy (analysisData alternating4)))
    by (vm_compute; reflexivity).
  split; [exact (conj H1 (conj H2 H3))|].
  exact (bounds_of_voiced_window morning alternating4 H1 H2 H3).
Defined.

(** Silence, where the window has no energy, is outside the theorem above:
    there the unguarded quotient of C1 makes both ratios NaN, and with them
    the four percentages and the risk. *)
Theorem silence_breaks_bounds (now : string) :
  lowFreqRatio (extractAudioFeatures silence1000) = NaN /\
  highFreqRatio (extractAudioFeatures silence1000) = NaN /\
  emotions (analyze now silence1000) = mkEmotionScores NaN NaN NaN NaN /\
  conflictRisk (analyze now silence1000) = NaN /\
  ~ within 0 1 (lowFreqRatio (extractAudioFeatures silence1000)) /\
  ~ within 0 1 (highFreqRatio (extractAudioFeatures silence1000)) /\
  ~ within 0 100 (calm (emotions (analyze now silence1000))) /\
  ~ within 0 100 (conflictRisk (analyze now silence1000)).
Proof.
  assert (Hf : extractAudioFeatures silence1000
               = mkAudioFeatures (Fin 1) (Fin 8000) zero zero zero NaN NaN zero)
    by (vm_compute; reflexivity).
  unfold analyze. cbv zeta. rewrite Hf.
  repeat split; try reflexivity; intros H; exact H.
Qed.

(** C4.  For a finite positive duration [d] and sample rate [r], with the
    product rounded as the code rounds it, [windowSamples] is
    [min(len(samples), floor(min(d, 30) * r))]; the window is the prefix of
    that many samples, and every feature is computed from that prefix and
    from nothing else.  For 120 seconds at 44100 Hz the analysed duration is
    30 and, the buffer holding at least [30 * 44100] samples, that many are
    analysed. *)
Theorem window_cap (b : AudioBuffer) (d r : Q) :
  ab_duration b = Fin d -> ab_sampleRate b = Fin r -> 0 < d -> 0 < r ->
  exists windowSamples : Z,
    Math_min (len (ab_channel0 b))
      (Math_floor (mul64 (Math_min (Fin d) (Fin 30)) (Fin r)))
    = of_Z windowSamples /\
    let window := firstn (Z.to_nat windowSamples) (ab_channel0 b) in
    analysisData b = window /\
    Z.of_nat (length window) = windowSamples /\
    duration (extractAudioFeatures b) = Math_min (Fin d) (Fin 30) /\
    rms (extractAudioFeatures b) = Math_sqrt (sumSquares window / len window) /\
    rmsVariance (extractAudioFeatures b)
    = calculateVariance window (Math_sqrt (sumSquares window / len window)) /\
    zcr (extractAudioFeatures b) = (of_Z (zeroCrossings window) / len window)%js /\
    lowFreqRatio (extractAudioFeatures b)
    = sf_lowFreqRatio (calculateSpectralFeatures window) /\
    highFreqRatio (extractAudioFeatures b)
    = sf_highFreqRatio (calculateSpectralFeatures window) /\
    spectralCentroid (extractAudioFeatures b)
    = sf_spectralCentroid (calculateSpectralFeatures window) /\
    (d == 120 -> r == 44100 ->
     (30 * 44100 <= Z.of_nat (length (ab_channel0 b)))%Z ->
     duration (extractAudioFeatures b) = Fin 30 /\
     windowSamples = (30 * 44100)%Z /\
     Z.of_nat (length (analysisData b)) = (30 * 44100)%Z).
Proof.
  intros Hd Hr Hdpos Hrpos.
  destruct (analysisData_window b d r Hd Hr) as (w & Hw & Hrange & Hdata); try lra.
  exists w. split; [exact Hw|]. cbv zeta.
  assert (Hlen : Z.of_nat (length (firstn (Z.to_nat w) (ab_channel0 b))) = w).
  { rewrite length_firstn. lia. }
  split; [exact Hdata|]. split; [exact Hlen|].
  unfold extractAudioFeatures. cbv zeta.
  cbn [duration rms rmsVariance zcr lowFreqRatio highFreqRatio spectralCentroid].
  rewrite Hdata, Hd. unfold maxDuration.
  do 7 (split; [reflexivity|]).
  intros Ed Er Hsamples.
  assert (Hmin : Math_min (Fin d) (Fin 30) = Fin 30).
  { unfold Math_min. replace (lt (Fin 30) (Fin d)) with true; [reflexivity|].
    symmetry. apply lt_Fin. lra. }
  assert (Hprod : Math_floor (mul64 (Fin 30) (Fin r)) = of_Z (30 * 44100)).
  { unfold mul64. replace (Qred (30 * r)) with (Qred (30 * 44100)).
    - vm_compute. reflexivity.
    - apply Qred_complete. rewrite Er. reflexivity. }
  rewrite Hmin, Hprod in Hw. unfold len in Hw. rewrite Math_min_of_Z in Hw.
  assert (Ew : w = (30 * 44100)%Z).
  { unfold of_Z in Hw. injection Hw as Hw. lia. }
  split; [exact Hmin|]. split; [exact Ew|]. rewrite Hlen. exact Ew.
Qed.

Lemma window_cap_witness :
  duration (extractAudioFeatures long120) = Fin 30 /\
  Z.of_nat (length (analysisData long120)) = 1323000%Z.
Proof.
  assert (Hlen : Z.of_nat (length (ab_channel0 long120)) = 5292000%Z).
  { unfold long120. cbn [ab_channel0]. rewrite repeat_length. apply Z2Nat.id. lia. }
  assert (Hd : ab_duration long120 = Fin 120) by reflexivity.
  assert (Hr : ab_sampleRate long120 = Fin 44100) by reflexivity.
  assert (Hdpos : 0 < 120) by reflexivity.
  assert (Hrpos : 0 < 44100) by reflexivity.
  destruct (window_cap long120 120 44100 Hd Hr Hdpos Hrpos) as (w & _ & H).
  cbv zeta in H. destruct H as (_ & _ & _ & _ & _ & _ & _ & _ & _ & H).
  assert (H30 : (30 * 44100 <= Z.of_nat (length (ab_channel0 long120)))%Z)
    by (rewrite Hlen; lia).
  destruct (H (Qeq_refl 120) (Qeq_refl 44100) H30) as (H1 & _ & H3).
  exact (conj H1 H3).
Defined.

(** The rounding of the product decides the window: the binary64 number
    nearest to 0.7, times 10, is a tie that rounds to 7, so seven samples are
    analysed, where the exact product, just below 7, would give six. *)
Example window_follows_rounded_product :
  length (analysisData
            (mkAudioBuffer (Fin (3152519739159347 # 4503599627370496)) (Fin 10)
               (repeat zero 10))) = 7%nat /\
  Qfloor ((3152519739159347 # 4503599627370496) * 10) = 6%Z.
Proof.
  vm_compute. split; reflexivity.
Qed.

(** C5, as stated, fails: on the four samples [1, -1, 1, -1] the rate is
    not 1. *)
Lemma alternating4_zcr_not_1 :
  ~ (zcr (extractAudioFeatures alternating4) == Fin 1)%js.
Proof.
  vm_compute. discriminate.
Qed.

(** C5, amended.  On the four samples [1, -1, 1, -1], all of them in the
    window, there are 3 crossings and [zcr] is 3/4 = 0.75. *)
Theorem alternating4_zcr :
  analysisData alternating4 = ab_channel0 alternating4 /\
  zeroCrossings (analysisData alternating4) = 3%Z /\
  zcr (extractAudioFeatures alternating4) = Fin (3 # 4).
Proof.
  vm_compute. repeat split.
Qed.

(** C6.  When the total of the raw scores is a finite number above 0, the
    four rounded percentages add up to a number between 98 and 102; nothing
    brings the sum back to 100: some features give 63 + 0 + 38 + 0 = 101. *)
Theorem rounded_sum_near_100 (now : string) (f : AudioFeatures)
    (d : num) (t : Q) :
  scoreTotal (rawScores f) = Fin t -> 0 < t ->
  within 98 102 (scoreTotal (emotions (calculateEmotion now f d))) /\
  exists f' : AudioFeatures,
    scoreTotal (rawScores f') = Fin 160 /\
    emotions (calculateEmotion now f' d)
    = mkEmotionScores (Fin 63) (Fin 0) (Fin 38) (Fin 0) /\
    scoreTotal (emotions (calculateEmotion now f' d)) = Fin 101.
Proof.
  intros Htot Ht. split.
  - change (emotions (calculateEmotion now f d)) with (normalizeScores (rawScores f)).
    exact (normalized_sum (rawScores f) t Htot Ht).
  - exists driftFeatures.
    change (emotions (calculateEmotion now driftFeatures d))
      with (normalizeScores (rawScores driftFeatures)).
    vm_compute. repeat split.
Qed.

Lemma rounded_sum_near_100_witness :
  scoreTotal (rawScores tenseFeatures) = Fin 200 /\
  within 98 102
    (scoreTotal (emotions (calculateEmotion morning tenseFeatures (Fin 1)))).
Proof.
  assert (H : scoreTotal (rawScores tenseFeatures) = Fin 200) by reflexivity.
  split; [exact H|].
  apply (rounded_sum_near_100 morning tenseFeatures (Fin 1) 200 H).
  reflexivity.
Defined.

(** C7.  The risk is [min(100, round(tense*0.4 + angry*0.6 + excited*0.2))]
    over the percentages after normalisation and rounding. *)
Theorem conflictRisk_formula (now : string) (f : AudioFeatures) (d : num) :
  let r := calculateEmotion now f d in
  emotions r = normalizeScores (rawScores f) /\
  conflictRisk r
  = Math_min (Fin 100)
      (Math_round (tense (emotions r) * Fin 0.4 + angry (emotions r) * Fin 0.6
                   + excited (emotions r) * Fin 0.2)%js).
Proof.
  cbv zeta. split; [reflexivity|].
  unfold calculateEmotion. cbv zeta. cbn [conflictRisk emotions].
  apply round_min_100.
Qed.

(** C8.  Two runs on buffers with the same samples, sample rate and
    duration give the same features and, whatever the clock reads, results
    that agree in every field but the timestamp, which is the clock's. *)
Theorem pipeline_deterministic (b1 b2 : AudioBuffer) (now1 now2 : string) :
  ab_channel0 b1 = ab_channel0 b2 ->
  ab_sampleRate b1 = ab_sampleRate b2 ->
  ab_duration b1 = ab_duration b2 ->
  extractAudioFeatures b1 = extractAudioFeatures b2 /\
  emotions (analyze now1 b1) = emotions (analyze now2 b2) /\
  conflictRisk (analyze now1 b1) = conflictRisk (analyze now2 b2) /\
  res_duration (analyze now1 b1) = res_duration (analyze now2 b2) /\
  features (analyze now1 b1) = features (analyze now2 b2) /\
  timestamp (analyze now1 b1) = now1 /\
  timestamp (analyze now2 b2) = now2.
Proof.
  destruct b1 as [d1 r1 s1], b2 as [d2 r2 s2]. cbn [ab_channel0 ab_sampleRate
    ab_duration]. intros -> -> ->.
  unfold analyze, calculateEmotion. cbv zeta.
  cbn [emotions conflictRisk res_duration features timestamp].
  refine (conj eq_refl (conj eq_refl (conj eq_refl (conj eq_refl
            (conj eq_refl (conj eq_refl eq_refl)))))).
Qed.

Lemma pipeline_deterministic_witness :
  emotions (analyze morning alternating4)
  = emotions (analyze noon alternating4) /\
  conflictRisk (analyze morning alternating4)
  = conflictRisk (analyze noon alternating4).
Proof.
  pose proof (pipeline_deterministic alternating4 alternating4 morning
                noon eq_refl eq_refl eq_refl)
    as (_ & He & Hr & _).
  exact (conj He Hr).
Defined.

(** C9.  For features whose variance, crossing rate, centroid and high
    ratio are finite and at least 0, the total of the raw scores is a finite
    number above 0; when [calm] is 0, [rmsVariance*1000 + zcr*500] is at
    least 100 and [tense] is at least 60. *)
Theorem raw_total_positive (f : AudioFeatures) :
  nonneg (rmsVariance f) -> nonneg (zcr f) ->
  nonneg (spectralCentroid f) -> nonneg (highFreqRatio f) ->
  positive_num (scoreTotal (rawScores f)) /\
  ((calm (rawScores f) == zero)%js ->
   nonneg (rmsVariance f * Fin 1000 + zcr f * Fin 500 - Fin 100)%js /\
   within 60 100 (tense (rawScores f))).
Proof.
  intros Hv Hz Hc Hh. split; [now apply rawScores_total_positive|].
  destruct (rawScores_nonneg_features f Hv Hz Hc Hh)
    as (v & z & C & T & A & E & -> & -> & -> & HC & HT & HA & HE & Hcalm).
  cbn [calm tense num_eq zero within]. intros H0.
  destruct (Hcalm H0) as [H100 H60]. split; [|lra].
  cbn [add sub neg mul nonneg]. rewrite !Qred_correct. lra.
Qed.

Lemma raw_total_positive_witness :
  (calm (rawScores tenseFeatures) == zero)%js /\
  positive_num (scoreTotal (rawScores tenseFeatures)) /\
  within 60 100 (tense (rawScores tenseFeatures)).
Proof.
  assert (Hv : nonneg (rmsVariance tenseFeatures)) by (vm_compute; discriminate).
  assert (Hz : nonneg (zcr tenseFeatures)) by (vm_compute; discriminate).
  assert (Hc : nonneg (spectralCentroid tenseFeatures)) by (vm_compute; discriminate).
  assert (Hh : nonneg (highFreqRatio tenseFeatures)) by (vm_compute; discriminate).
  assert (H0 : (calm (rawScores tenseFeatures) == zero)%js) by reflexivity.
  destruct (raw_total_positive tenseFeatures Hv Hz Hc Hh) as [Hpos Hcalm].
  destruct (Hcalm H0) as [_ Ht].
  exact (conj H0 (conj Hpos Ht)).
Defined.

(** C10.  A non-empty window of [n] samples has at most [n - 1] zero
    crossings, and [zcr] is a finite number at least 0 and below 1. *)
Theorem zcr_below_one (b : AudioBuffer) :
  analysisData b <> [] ->
  (0 <= zeroCrossings (analysisData b)
     <= Z.of_nat (length (analysisData b)) - 1)%Z /\
  exists q, zcr (extractAudioFeatures b) = Fin q /\ 0 <= q < 1.
Proof.
  intros Hne. split; [now apply zeroCrossings_bounds|].
  unfold extractAudioFeatures. cbv zeta. cbn [zcr].
  now apply zcr_value.
Qed.

Lemma zcr_below_one_witness :
  analysisData alternating4 <> [] /\
  exists q, zcr (extractAudioFeatures alternating4) = Fin q /\ 0 <= q < 1.
Proof.
  assert (H : analysisData alternating4 <> []) by (vm_compute; discriminate).
  split; [exact H|]. exact (proj2 (zcr_below_one alternating4 H)).
Defined.

(** ** Further properties of the analyser *)

(** The loop invariant again, the index now known to stay below [hi]. *)
Lemma for_index_invariant_bounded {S : Type} (P : S -> Prop) (Q : num -> Prop)
    (body : Z -> num -> S -> S) (hi : Z) :
  (forall i x st, (0 <= i < hi)%Z -> Q x -> P st -> P (body i x st)) ->
  forall data i st,
    (0 <= i)%Z -> (i + Z.of_nat (length data) <= hi)%Z ->
    Forall Q data -> P st -> P (for_index body i data st).
Proof.
  intros Hbody data. induction data as [|x rest IH]; intros i st Hi Hhi Hall Hst.
  - exact Hst.
  - inversion Hall; subst. simpl for_index. simpl length in Hhi.
    apply IH; [lia | lia | assumption |]. apply Hbody; [lia | assumption | exact Hst].
Qed.

(** The two sums of the centroid loop over a frame of [n] samples: the
    weighted one is at most [n - 1] times the plain one. *)
Lemma centroid_sums_ratio (data : list num) :
  Forall is_finite data ->
  exists ws s,
    centroid_sums data = (Fin ws, Fin s) /\ 0 <= ws /\ 0 <= s /\
    ws <= inject_Z (Z.of_nat (frameSize data) - 1) * s.
Proof.
  intros Hfin. unfold centroid_sums.
  assert (Hlen : length (firstn (frameSize data) data) = frameSize data).
  { rewrite length_firstn. unfold frameSize. lia. }
  set (K := inject_Z (Z.of_nat (frameSize data) - 1)).
  apply (for_index_invariant_bounded
           (fun st => exists ws s, st = (Fin ws, Fin s) /\ 0 <= ws /\ 0 <= s /\
                                   ws <= K * s)
           is_finite centroid_step (Z.of_nat (frameSize data))).
  - intros i x st Hi Hx (ws & s & -> & Hws & Hs & Hle).
    destruct x as [q| | |]; try contradiction.
    unfold centroid_step. cbn [fst snd Math_abs mul add of_Z].
    eexists. eexists. split; [reflexivity|].
    pose proof (Qabs_nonneg q) as Hq.
    assert (HiK : inject_Z i <= K).
    { unfold K. rewrite <- Zle_Qle. lia. }
    assert (Hi0 : 0 <= inject_Z i).
    { rewrite <- (Zle_Qle 0). lia. }
    rewrite !Qred_correct. repeat split; nra.
  - lia.
  - rewrite Hlen. lia.
  - apply firstn_Forall. exact Hfin.
  - exists 0, 0. repeat split; try reflexivity; try lra.
Qed.

(** X1.  The centroid of a non-empty window of finite samples is bounded by
    the frame, not by the window: it is a finite number between 0 and
    [min(n, 1024)], however long the window is. *)
Theorem centroid_within_frame (b : AudioBuffer) :
  analysisData b <> [] ->
  Forall is_finite (analysisData b) ->
  within 0 (inject_Z (Z.min (Z.of_nat (length (analysisData b))) 1024))
    (spectralCentroid (extractAudioFeatures b)).
Proof.
  intros Hne Hfin. unfold extractAudioFeatures. cbv zeta. cbn [spectralCentroid].
  set (data := analysisData b) in *.
  destruct (centroid_sums_ratio data Hfin) as (ws & s & E & Hws & Hs & Hle).
  assert (Hframe : Z.of_nat (frameSize data)
                   = Z.min (Z.of_nat (length data)) 1024).
  { unfold frameSize. lia. }
  rewrite Hframe in Hle.
  assert (Hn : (1 <= Z.of_nat (length data))%Z).
  { destruct data; [congruence|]. simpl length. lia. }
  set (n := Z.min (Z.of_nat (length data)) 1024) in *.
  assert (HK : 0 <= inject_Z (n - 1)).
  { rewrite <- (Zle_Qle 0). unfold n. lia. }
  assert (HK1 : inject_Z (n - 1) <= inject_Z n).
  { rewrite <- Zle_Qle. lia. }
  unfold calculateSpectralFeatures. rewrite E. cbn [sf_spectralCentroid].
  destruct (gt (Fin s) zero) eqn:Egt.
  - apply lt_Fin in Egt. rewrite div_Fin_pos by exact Egt.
    cbn [within]. rewrite Qred_correct. split.
    + apply Qle_shift_div_l; lra.
    + apply Qle_shift_div_r; [lra|]. nra.
  - cbn [within zero]. split; lra.
Qed.

Lemma centroid_within_frame_witness :
  within 0 4 (spectralCentroid (extractAudioFeatures alternating4)).
Proof.
  assert (H1 : analysisData alternating4 <> []) by (vm_compute; discriminate).
  assert (H2 : Forall is_finite (analysisData alternating4))
    by (vm_compute; repeat constructor).
  exact (centroid_within_frame alternating4 H1 H2).
Defined.

(** *** The bands of the energy loop *)

Lemma for_index_app {S : Type} (body : Z -> num -> S -> S) (l1 l2 : list num) :
  forall i st,
    for_index body i (l1 ++ l2) st
    = for_index body (i + Z.of_nat (length l1)) l2 (for_index body i l1 st).
Proof.
  induction l1 as [|x l1 IH]; intros i st.
  - simpl. now rewrite Z.add_0_r.
  - simpl app. simpl for_index. rewrite IH. f_equal. simpl length. lia.
Qed.

Lemma energy_loop_low (third : Z) (l : list num) : forall i e,
  (i + Z.of_nat (length l) <= third)%Z ->
  for_index (energy_step third) i l e
  = mkEnergies (fold_left (fun acc x => acc + Math_abs x)%js l (lowFreqEnergy e))
      (midFreqEnergy e) (highFreqEnergy e).
Proof.
  induction l as [|x l IH]; intros i e Hi.
  - destruct e; reflexivity.
  - simpl length in Hi. simpl for_index. rewrite IH by lia.
    unfold energy_step. destruct (Z.ltb_spec i third); [reflexivity | lia].
Qed.

Lemma energy_loop_mid (third : Z) (l : list num) : forall i e,
  (third <= i)%Z -> (i + Z.of_nat (length l) <= 2 * third)%Z ->
  for_index (energy_step third) i l e
  = mkEnergies (lowFreqEnergy e)
      (fold_left (fun acc x => acc + Math_abs x)%js l (midFreqEnergy e))
      (highFreqEnergy e).
Proof.
  induction l as [|x l IH]; intros i e Hlo Hi.
  - destruct e; reflexivity.
  - simpl length in Hi. simpl for_index. rewrite IH by lia.
    unfold energy_step. destruct (Z.ltb_spec i third); [lia|].
    destruct (Z.ltb_spec i (2 * third)); [reflexivity | lia].
Qed.

Lemma energy_loop_high (third : Z) (l : list num) : forall i e,
  (third <= i)%Z -> (2 * third <= i)%Z ->
  for_index (energy_step third) i l e
  = mkEnergies (lowFreqEnergy e) (midFreqEnergy e)
      (fold_left (fun acc x => acc + Math_abs x)%js l (highFreqEnergy e)).
Proof.
  induction l as [|x l IH]; intros i e Hlo Hi.
  - destruct e; reflexivity.
  - simpl for_index. rewrite IH by lia.
    unfold energy_step. destruct (Z.ltb_spec i third); [lia|].
    destruct (Z.ltb_spec i (2 * third)); [lia | reflexivity].
Qed.

(** X2.  The loop sums three bands by position: the first [floor(n/3)] samples,
    the next [floor(n/3)], and the remaining [n - 2*floor(n/3)], which is
    the longest band unless 3 divides [n]. *)
Theorem energy_bands (data : list num) :
  let third := (length data / 3)%nat in
  energies data
  = mkEnergies (sumAbs (firstn third data))
      (sumAbs (firstn third (skipn third data)))
      (sumAbs (skipn (2 * third) data)) /\
  length (firstn third data) = third /\
  length (firstn third (skipn third data)) = third /\
  length (skipn (2 * third) data) = (length data - 2 * third)%nat.
Proof.
  cbv zeta. set (t := (length data / 3)%nat).
  assert (Ht : (3 * t <= length data)%nat).
  { unfold t. pose proof (Nat.Div0.mul_div_le (length data) 3). lia. }
  assert (L1 : length (firstn t data) = t) by (rewrite length_firstn; lia).
  assert (L2 : length (firstn t (skipn t data)) = t).
  { rewrite length_firstn, length_skipn. lia. }
  split; [|split; [exact L1 | split; [exact L2 | rewrite length_skipn; lia]]].
  unfold energies.
  assert (Hthird : (Z.of_nat (length data) / 3)%Z = Z.of_nat t).
  { unfold t. rewrite Nat2Z.inj_div. reflexivity. }
  rewrite Hthird.
  rewrite <- (firstn_skipn t data) at 1.
  rewrite <- (firstn_skipn t (skipn t data)) at 1.
  rewrite skipn_skipn. replace (t + t)%nat with (2 * t)%nat by lia.
  rewrite !for_index_app.
  rewrite (energy_loop_low (Z.of_nat t) (firstn t data)) by lia.
  rewrite (energy_loop_mid (Z.of_nat t) (firstn t (skipn t data))) by lia.
  rewrite (energy_loop_high (Z.of_nat t) (skipn (2 * t) data)) by lia.
  reflexivity.
Qed.

(** X4.  In a window of one or two samples every sample falls in the last band:
    with energy, [lowFreqRatio] is 0 and [highFreqRatio] is 1. *)
Theorem short_window_ratios (b : AudioBuffer) :
  (length (analysisData b) < 3)%nat ->
  positive_num (totalEnergy (analysisData b)) ->
  lowFreqRatio (extractAudioFeatures b) = Fin 0 /\
  highFreqRatio (extractAudioFeatures b) = Fin 1.
Proof.
  intros Hlen Hpos. unfold extractAudioFeatures. cbv zeta.
  cbn [lowFreqRatio highFreqRatio].
  set (data := analysisData b) in *.
  destruct (spectral_ratios data) as [-> ->].
  assert (He : lowFreqEnergy (energies data) = zero /\
               midFreqEnergy (energies data) = zero).
  { unfold energies.
    replace (Z.of_nat (length data) / 3)%Z with 0%Z
      by (symmetry; apply Z.div_small; lia).
    rewrite (energy_loop_high 0 data) by lia. split; reflexivity. }
  destruct He as [El Em].
  destruct (totalEnergy data) as [t| | |] eqn:E; cbn [positive_num] in Hpos;
    try contradiction.
  destruct (totalEnergy_Fin_inv data t E)
    as (l & m & h & El' & Em' & -> & Hl & Hm & Hh & Et).
  rewrite El in *. rewrite Em in Em'.
  assert (l = 0) by (unfold zero in El'; congruence).
  assert (m = 0) by (unfold zero in Em'; congruence). subst l m.
  unfold zero. rewrite !div_Fin_pos by exact Hpos. split.
  - f_equal.
  - f_equal. transitivity (Qred 1); [|reflexivity]. apply Qred_complete.
    assert (Hh0 : 0 < h) by lra. rewrite Et. field. lra.
Qed.

Lemma short_window_ratios_witness :
  lowFreqRatio (extractAudioFeatures
                  (mkAudioBuffer (Fin 1) (Fin 2) [Fin 0.5; Fin (-0.25)])) = Fin 0 /\
  highFreqRatio (extractAudioFeatures
                   (mkAudioBuffer (Fin 1) (Fin 2) [Fin 0.5; Fin (-0.25)])) = Fin 1.
Proof.
  apply short_window_ratios.
  - vm_compute. lia.
  - vm_compute. reflexivity.
Defined.

(** *** What lies after the window *)



(** *** The duration of the result *)

(** X6.  The result carries the duration of the whole buffer, not of the
    window: for a duration [d] from 0 to 10^9 seconds it is a finite number
    within 0.01 of [d]; past 30 seconds it is at least 30 while the features
    carry 30. *)
Theorem result_duration_is_uncapped (now : string) (b : AudioBuffer) (d : Q) :
  ab_duration b = Fin d -> 0 <= d -> d <= 1000000000 ->
  exists q,
    res_duration (analyze now b) = Fin q /\
    d - (1 # 100) <= q <= d + (1 # 100) /\
    (30 < d -> duration (extractAudioFeatures b) = Fin 30 /\ 30 <= q).
Proof.
  intros Hd Hd0 Hdmax. unfold analyze, calculateEmotion. cbv zeta. cbn [res_duration].
  rewrite Hd. cbn [mul Math_round]. unfold of_Z.
  rewrite div_Fin_pos by reflexivity.
  eexists. split; [reflexivity|].
  set (k := Qfloor (Qred (d * 100) + (1 # 2))).
  pose proof (round_near (Qred (d * 100))) as [H1 H2]. fold k in H1, H2.
  rewrite Qred_correct in H1, H2. rewrite Qred_correct.
  assert (Hq : inject_Z k / 100 == inject_Z k * (1 # 100)) by (field; lra).
  split; [rewrite Hq; split; lra|].
  intros H30. split.
  - unfold extractAudioFeatures. cbv zeta. cbn [duration]. rewrite Hd.
    unfold Math_min, maxDuration.
    replace (lt (Fin 30) (Fin d)) with true; [reflexivity|].
    symmetry. apply lt_Fin. exact H30.
  - assert (Hk : (3000 <= k)%Z).
    { assert ((2999 < k)%Z); [|lia]. apply inject_Z_lt_inv.
      change (inject_Z 2999) with 2999. lra. }
    rewrite Zle_Qle in Hk. change (inject_Z 3000) with 3000 in Hk.
    rewrite Hq. lra.
Qed.

Lemma result_duration_is_uncapped_witness :
  exists q,
    res_duration (analyze morning long120) = Fin q /\ 30 <= q.
Proof.
  assert (H0 : 0 <= 120) by discriminate.
  assert (Hmax : 120 <= 1000000000) by discriminate.
  destruct (result_duration_is_uncapped morning long120 120 eq_refl H0 Hmax)
    as (q & Hq & _ & H).
  exists q. split; [exact Hq|]. apply H. reflexivity.
Defined.

(** *** Samples between -1 and 1 *)

(** A loop that adds to its accumulator a term between 0 and [B] for each
    sample. *)
Lemma for_index_sum_bounded (P : num -> Prop) (body : Z -> num -> num -> num)
    (B : Q) :
  (forall i x a, P x -> exists a', body i x (Fin a) = Fin a' /\ a <= a' <= a + B) ->
  forall data i a,
    Forall P data ->
    exists a', for_index body i data (Fin a) = Fin a' /\
               a <= a' <= a + B * inject_Z (Z.of_nat (length data)).
Proof.
  intros Hbody data. induction data as [|x rest IH]; intros i a Hall.
  - exists a. split; [reflexivity|]. simpl length. change (inject_Z (Z.of_nat 0)) with 0.
    split; lra.
  - inversion Hall as [|? ? Hx Hrest]; subst. simpl for_index.
    destruct (Hbody i x a Hx) as (a1 & -> & Ha1).
    destruct (IH (i + 1)%Z a1 Hrest) as (a2 & -> & Ha2).
    exists a2. split; [reflexivity|].
    assert (HB : 0 <= B) by lra.
    assert (Hn : 0 <= inject_Z (Z.of_nat (length rest))).
    { rewrite <- (Zle_Qle 0). lia. }
    simpl length. rewrite Nat2Z.inj_succ, <- Z.add_1_r, inject_Z_plus.
    change (inject_Z 1) with 1. split; nra.
Qed.

Lemma Qsqrt_le_1 (q : Q) : 0 <= q -> q <= 1 -> Qsqrt q <= 1.
Proof.
  intros H0 H1. unfold Qsqrt. cbv zeta. rewrite Qred_correct.
  destruct q as [n d]. unfold Qle in H0, H1. cbn [Qnum Qden] in *.
  assert (Hnd : (n * Z.pos d <= Z.pos d * Z.pos d)%Z) by nia.
  destruct (_ =? _)%Z; unfold Qle; cbn [Qnum Qden];
    rewrite Z.mul_1_r, Z.mul_1_l.
  - apply Z.le_trans with (Z.sqrt (Z.pos d * Z.pos d)).
    + apply Z.sqrt_le_mono. exact Hnd.
    + rewrite Z.sqrt_square; lia.
  - rewrite Pos2Z.inj_mul. rewrite Z2Pos.id by (vm_compute; reflexivity).
    set (p := (2 ^ sqrt_bits)%Z).
    assert (Hp : (0 < p)%Z) by (vm_compute; reflexivity).
    replace (4 ^ sqrt_bits)%Z with (p * p)%Z by (vm_compute; reflexivity).
    apply Z.le_trans with (Z.sqrt ((Z.pos d * p) * (Z.pos d * p))).
    + apply Z.sqrt_le_mono. nia.
    + rewrite Z.sqrt_square; nia.
Qed.

Lemma unit_range_rms (data : list num) :
  data <> [] -> Forall (within (-1) 1) data ->
  within 0 1 (Math_sqrt (sumSquares data / len data)).
Proof.
  intros Hne Hunit.
  destruct (for_index_sum_bounded (within (-1) 1) (fun _ x sum => sum + x * x)%js 1)
    with (data := data) (i := 0%Z) (a := 0) as (s & Es & Hs).
  - intros i x a Hx. destruct x as [q| | |]; cbn [within] in Hx; try contradiction.
    cbn [add mul]. eexists. split; [reflexivity|]. rewrite !Qred_correct. split; nra.
  - exact Hunit.
  - unfold sumSquares, zero. rewrite Es.
    pose proof (len_positive data Hne) as Hn. unfold len, of_Z in *.
    cbn [positive_num] in Hn. rewrite div_Fin_pos by exact Hn.
    assert (H0 : 0 <= Qred (s / inject_Z (Z.of_nat (length data)))).
    { rewrite Qred_correct. apply Qle_shift_div_l; lra. }
    assert (H1 : Qred (s / inject_Z (Z.of_nat (length data))) <= 1).
    { rewrite Qred_correct. apply Qle_shift_div_r; lra. }
    unfold Math_sqrt. destruct (Qcompare_spec (Qred (s / inject_Z (Z.of_nat (length data)))) 0);
      try lra; cbn [within]; split;
      auto using Qsqrt_nonneg, Qsqrt_le_1.
Qed.

Lemma unit_range_variance (data : list num) (mean : num) :
  data <> [] -> Forall (within (-1) 1) data -> within 0 1 mean ->
  within 0 4 (calculateVariance data mean).
Proof.
  intros Hne Hunit Hmean.
  destruct mean as [r| | |]; cbn [within] in Hmean; try contradiction.
  destruct (for_index_sum_bounded (within (-1) 1)
              (fun _ x variance => variance + Math_pow (x - Fin r) 2)%js 4)
    with (data := data) (i := 0%Z) (a := 0) as (s & Es & Hs).
  - intros i x a Hx. destruct x as [q| | |]; cbn [within] in Hx; try contradiction.
    cbn [add sub neg mul Math_pow]. eexists. split; [reflexivity|].
    rewrite !Qred_correct, Qmult_1_r.
    assert (-2 <= q + - r <= 1) by lra. generalize dependent (q + - r). intros e ?.
    split; nra.
  - exact Hunit.
  - unfold calculateVariance, zero. rewrite Es.
    pose proof (len_positive data Hne) as Hn. unfold len, of_Z in *.
    cbn [positive_num] in Hn. rewrite div_Fin_pos by exact Hn.
    cbn [within]. rewrite Qred_correct. split.
    + apply Qle_shift_div_l; lra.
    + apply Qle_shift_div_r; lra.
Qed.

Lemma div_within (lo hi k : Q) (x : num) :
  0 < k -> within (lo * k) (hi * k) x -> within lo hi (x / Fin k).
Proof.
  intros Hk. destruct x as [q| | |]; cbn [within]; try contradiction.
  intros [H1 H2]. rewrite div_Fin_pos by exact Hk. cbn [within].
  rewrite Qred_correct. split.
  - apply Qle_shift_div_l; lra.
  - apply Qle_shift_div_r; lra.
Qed.

Lemma scaled_round_within (hi k : Z) (x : num) :
  (0 <= k)%Z -> within 0 (inject_Z hi) x ->
  within 0 (inject_Z (hi * k)) (Math_round (x * Fin (inject_Z k))).
Proof.
  intros Hk. destruct x as [q| | |]; cbn [within]; try contradiction.
  intros [H1 H2]. apply (Math_round_within 0 (hi * k)). cbn [mul within].
  rewrite Qred_correct, inject_Z_mult. change (inject_Z 0) with 0.
  rewrite Zle_Qle in Hk. change (inject_Z 0) with 0 in Hk. split; nra.
Qed.

(** X7.  For a non-empty window of samples between -1 and 1: [rms] is between 0
    and 1 and [rmsVariance] between 0 and 4; the summary has [volume] up to
    1000, [variability] up to 4000 and [zeroCrossing] up to 100; of the bars
    of the feature chart, whose axis ends at 100, the first and the third
    stay within 100 and the second within 800. *)
Theorem unit_range_features (now : string) (b : AudioBuffer) :
  analysisData b <> [] ->
  Forall (within (-1) 1) (analysisData b) ->
  let f := extractAudioFeatures b in
  let s := features (analyze now b) in
  within 0 1 (rms f) /\ within 0 4 (rmsVariance f) /\
  within 0 1000 (volume s) /\ within 0 4000 (variability s) /\
  within 0 100 (zeroCrossing s) /\
  exists v1 v2 v3,
    SpeechEmotionApp.featureChartData s = [v1; v2; v3] /\
    within 0 100 v1 /\ within 0 800 v2 /\ within 0 100 v3.
Proof.
  intros Hne Hunit. cbv zeta.
  unfold analyze, calculateEmotion. cbv zeta. cbn [features].
  unfold SpeechEmotionApp.featureChartData. cbn [volume variability zeroCrossing].
  unfold extractAudioFeatures. cbv zeta. cbn [rms rmsVariance zcr].
  set (data := analysisData b) in *.
  pose proof (unit_range_rms data Hne Hunit) as Hrms.
  pose proof (unit_range_variance data _ Hne Hunit Hrms) as Hvar.
  destruct (zcr_value data Hne) as (z & Ez & Hz).
  assert (Hzcr : within 0 1 (of_Z (zeroCrossings data) / len data)).
  { rewrite Ez. cbn [within]. lra. }
  pose proof (scaled_round_within 1 1000 _ ltac:(lia) Hrms) as Hvol.
  pose proof (scaled_round_within 4 1000 _ ltac:(lia) Hvar) as Hvari.
  pose proof (scaled_round_within 1 100 _ ltac:(lia) Hzcr) as Hzc.
  change (inject_Z (1 * 1000)) with 1000 in Hvol.
  change (inject_Z (4 * 1000)) with 4000 in Hvari.
  change (inject_Z (1 * 100)) with 100 in Hzc.
  change (inject_Z 1000) with 1000 in Hvol, Hvari.
  change (inject_Z 100) with 100 in Hzc.
  refine (conj Hrms (conj Hvar (conj Hvol (conj Hvari (conj Hzc _))))).
  eexists. eexists. eexists. split; [reflexivity|].
  split; [apply div_within; [reflexivity | exact Hvol]|].
  split; [apply div_within; [reflexivity | exact Hvari] | exact Hzc].
Qed.

Lemma unit_range_features_witness :
  within 0 4 (rmsVariance (extractAudioFeatures alternating4)) /\
  within 0 4000 (variability (features (analyze morning alternating4))).
Proof.
  assert (H1 : analysisData alternating4 <> []) by (vm_compute; discriminate).
  assert (H2 : Forall (within (-1) 1) (analysisData alternating4)).
  { vm_compute. repeat constructor; discriminate. }
  pose proof (unit_range_features morning alternating4 H1 H2) as H.
  cbv zeta in H. destruct H as (_ & Hv & _ & Hvar & _).
  exact (conj Hv Hvar).
Defined.

(** *** How high the risk can get *)

(** The weighted sum of the raw scores of finite non-negative features is at
    most 0.46 of their total. *)
Lemma rawScores_weighted (f : AudioFeatures) :
  nonneg (rmsVariance f) -> nonneg (zcr f) ->
  nonneg (spectralCentroid f) -> nonneg (highFreqRatio f) ->
  exists C T A E,
    rawScores f = mkEmotionScores (Fin C) (Fin T) (Fin A) (Fin E) /\
    0 <= C /\ 0 <= T /\ 0 <= A /\ 0 <= E /\ 0 < C + T + A + E /\
    40 * T + 60 * A + 20 * E <= 46 * (C + T + A + E).
Proof.
  intros Hv Hz Hc Hh.
  destruct (rmsVariance f) as [v| | |] eqn:Ev; try contradiction.
  destruct (zcr f) as [z| | |] eqn:Ez; try contradiction.
  destruct (spectralCentroid f) as [c| | |] eqn:Ec; try contradiction.
  destruct (highFreqRatio f) as [h| | |] eqn:Eh; try contradiction.
  cbn [nonneg] in *.
  destruct (rawScores_Fin f v z c h Ev Ez Ec Eh)
    as (C & T & A & E & -> & HC & HT & HA & HE).
  exists C, T, A, E. split; [reflexivity|].
  destruct (Q.max_spec 0 (100 - v * 1000 - z * 500)) as [[? HC']|[? HC']];
  destruct (Q.min_spec 100 (z * 800 + v * 600)) as [[? HT']|[? HT']];
  destruct (Q.min_spec 100 (c * 50 + h * 200)) as [[? HA']|[? HA']];
  destruct (Q.min_spec 100 ((v + z) * 400)) as [[? HE']|[? HE']];
  rewrite HC' in HC; rewrite HT' in HT; rewrite HA' in HA; rewrite HE' in HE;
  repeat split; lra.
Qed.

Lemma conflictRisk_bound (now : string) (f : AudioFeatures) (d : num) :
  nonneg (rmsVariance f) -> nonneg (zcr f) ->
  nonneg (spectralCentroid f) -> nonneg (highFreqRatio f) ->
  within 0 47 (conflictRisk (calculateEmotion now f d)).
Proof.
  intros Hv Hz Hc Hh.
  destruct (rawScores_weighted f Hv Hz Hc Hh)
    as (C & T & A & E & Hraw & HC & HT & HA & HE & Hpos & Hw).
  change (within 0 47
            (Math_round (Math_min (Fin 100)
                           (riskSum (normalizeScores (rawScores f)))))).
  rewrite Hraw. unfold normalizeScores.
  destruct (scoreTotal_Fin C T A E) as (t & -> & Ht).
  assert (Htpos : 0 < t) by lra.
  cbn [calm tense angry excited]. rewrite !normalize_Fin by exact Htpos.
  unfold riskSum. cbn [tense angry excited]. unfold of_Z. cbn [mul add].
  pose proof (round_near (T / t * 100)) as [HT1 HT2].
  pose proof (round_near (A / t * 100)) as [HA1 HA2].
  pose proof (round_near (E / t * 100)) as [HE1 HE2].
  assert (HuT : 0 <= T / t) by (apply Qle_shift_div_l; lra).
  assert (HuA : 0 <= A / t) by (apply Qle_shift_div_l; lra).
  assert (HuE : 0 <= E / t) by (apply Qle_shift_div_l; lra).
  assert (Hsum : 40 * (T / t) + 60 * (A / t) + 20 * (E / t) <= 46).
  { assert (Hfield : 40 * (T / t) + 60 * (A / t) + 20 * (E / t)
                     == (40 * T + 60 * A + 20 * E) / t) by (field; lra).
    rewrite Hfield. apply Qle_shift_div_r; lra. }
  assert (HpT : 0 <= inject_Z (Qfloor (T / t * 100 + (1 # 2)))).
  { rewrite <- (Zle_Qle 0), <- (Qfloor_Z 0). apply Qfloor_resp_le.
    change (inject_Z 0) with 0. lra. }
  assert (HpA : 0 <= inject_Z (Qfloor (A / t * 100 + (1 # 2)))).
  { rewrite <- (Zle_Qle 0), <- (Qfloor_Z 0). apply Qfloor_resp_le.
    change (inject_Z 0) with 0. lra. }
  assert (HpE : 0 <= inject_Z (Qfloor (E / t * 100 + (1 # 2)))).
  { rewrite <- (Zle_Qle 0), <- (Qfloor_Z 0). apply Qfloor_resp_le.
    change (inject_Z 0) with 0. lra. }
  apply (Math_round_within 0 47).
  match goal with |- within _ _ (Math_min _ (Fin ?q)) =>
    destruct (Math_min_Fin 100 q) as (m & -> & Hm);
    destruct (Q.min_spec 100 q) as [[Hlt Hm']|[Hle Hm']]; rewrite Hm' in Hm;
    rewrite !Qred_correct in *
  end; cbn [within]; change (inject_Z 0) with 0; change (inject_Z 47) with 47;
    split; lra.
Qed.

(** X8.  For finite non-negative features the risk is at most 47: the cap at 100
    never applies. *)
Theorem conflictRisk_at_most_47 (now : string) (f : AudioFeatures) (d : num) :
  nonneg (rmsVariance f) -> nonneg (zcr f) ->
  nonneg (spectralCentroid f) -> nonneg (highFreqRatio f) ->
  within 0 47 (conflictRisk (calculateEmotion now f d)) /\
  conflictRisk (calculateEmotion now f d)
  = Math_round (riskSum (emotions (calculateEmotion now f d))).
Proof.
  intros Hv Hz Hc Hh.
  pose proof (conflictRisk_bound now f d Hv Hz Hc Hh) as Hb.
  split; [exact Hb|].
  unfold calculateEmotion in *. cbv zeta in *. cbn [conflictRisk emotions] in *.
  destruct (riskSum (normalizeScores (rawScores f))) as [q| | |].
  - unfold Math_min in *. destruct (lt (Fin q) (Fin 100)) eqn:E; [reflexivity|].
    exfalso. change (Math_round (Fin 100)) with (Fin 100) in Hb.
    cbn [within] in Hb. lra.
  - exfalso. change (within 0 47 (Fin 100)) in Hb. cbn [within] in Hb. lra.
  - reflexivity.
  - reflexivity.
Qed.

Lemma conflictRisk_at_most_47_witness :
  conflictRisk (calculateEmotion morning angryFeatures (Fin 1)) = Fin 46 /\
  within 0 47 (conflictRisk (calculateEmotion morning angryFeatures (Fin 1))).
Proof.
  split; [reflexivity|].
  apply (conflictRisk_at_most_47 morning angryFeatures (Fin 1));
    vm_compute; discriminate.
Defined.

(** ** Properties of the report *)

Import SpeechEmotionApp.

Lemma add_NaN_r (x : num) : (x + NaN)%js = NaN.
Proof. destruct x; reflexivity. Qed.

Lemma div_NaN_r (x : num) : (x / NaN)%js = NaN.
Proof. destruct x; reflexivity. Qed.

(** A NaN in [highFreqRatio] reaches every percentage and the risk. *)
Lemma NaN_ratio_scores (now : string) (f : AudioFeatures) (d : num) :
  highFreqRatio f = NaN ->
  emotions (calculateEmotion now f d) = mkEmotionScores NaN NaN NaN NaN /\
  conflictRisk (calculateEmotion now f d) = NaN.
Proof.
  intros H.
  assert (Hraw : angry (rawScores f) = NaN).
  { unfold rawScores. cbn [angry]. rewrite H. cbn [mul]. rewrite add_NaN_r.
    reflexivity. }
  assert (Htot : scoreTotal (rawScores f) = NaN).
  { unfold scoreTotal. cbn [fold_left]. rewrite Hraw, add_NaN_r. reflexivity. }
  assert (Hnorm : normalizeScores (rawScores f) = mkEmotionScores NaN NaN NaN NaN).
  { unfold normalizeScores, normalize. rewrite Htot, !div_NaN_r. reflexivity. }
  unfold calculateEmotion. cbv zeta. cbn [emotions conflictRisk].
  rewrite Hnorm. split; reflexivity.
Qed.

Lemma getRiskLevel_below_60 (risk : num) :
  within 0 47 risk ->
  getRiskLevel risk = "低风险"%string \/ getRiskLevel risk = "中等风险"%string.
Proof.
  destruct risk as [q| | |]; cbn [within]; try contradiction. intros [H0 H47].
  unfold getRiskLevel. destruct (lt (Fin q) (Fin 30)); [now left|].
  destruct (lt (Fin q) (Fin 60)) eqn:E; [now right|].
  apply lt_Fin_false in E. lra.
Qed.

(** The total energy of finite samples is a finite number at least 0. *)
Lemma totalEnergy_nonneg (data : list num) :
  Forall is_finite data -> nonneg (totalEnergy data).
Proof.
  intros Hfin. destruct (energies_nonneg data Hfin) as (Hl & Hm & Hh).
  unfold totalEnergy. cbv zeta. auto using nonneg_add.
Qed.

Lemma voiced_features_nonneg (b : AudioBuffer) :
  analysisData b <> [] ->
  Forall is_finite (analysisData b) ->
  positive_num (totalEnergy (analysisData b)) ->
  nonneg (rmsVariance (extractAudioFeatures b)) /\
  nonneg (zcr (extractAudioFeatures b)) /\
  nonneg (spectralCentroid (extractAudioFeatures b)) /\
  nonneg (highFreqRatio (extractAudioFeatures b)).
Proof.
  intros Hne Hfin Hpos.
  destruct (features_of_voiced_window b Hne Hfin Hpos)
    as (_ & Hv & Hz & _ & Hh & Hc).
  repeat split; try assumption.
  - destruct (zcr (extractAudioFeatures b)); cbn [within nonneg] in *; tauto.
  - destruct (highFreqRatio (extractAudioFeatures b)); cbn [within nonneg] in *; tauto.
Qed.

(** X9.  For a non-empty window of finite samples the report says high risk
    exactly when the window is silent: with energy the risk is at most 47,
    below the threshold of 60, and without energy it is NaN, which is below
    no threshold. *)
Theorem high_risk_iff_silent (now : string) (b : AudioBuffer) :
  analysisData b <> [] ->
  Forall is_finite (analysisData b) ->
  (getRiskLevel (conflictRisk (analyze now b)) = "高风险"%string <->
   (totalEnergy (analysisData b) == zero)%js).
Proof.
  intros Hne Hfin.
  pose proof (totalEnergy_nonneg (analysisData b) Hfin) as Hnn.
  split.
  - intros Hhigh.
    destruct (totalEnergy (analysisData b)) as [t| | |] eqn:E;
      cbn [nonneg] in Hnn; try contradiction.
    cbn [num_eq zero]. destruct (Qlt_le_dec 0 t) as [Hpos|Hle]; [|lra].
    exfalso.
    assert (Hpos' : positive_num (totalEnergy (analysisData b)))
      by (rewrite E; exact Hpos).
    destruct (voiced_features_nonneg b Hne Hfin Hpos') as (Hv & Hz & Hc & Hh).
    pose proof (conflictRisk_bound now (extractAudioFeatures b) (ab_duration b)
                  Hv Hz Hc Hh) as Hb.
    destruct (getRiskLevel_below_60 _ Hb) as [Hl|Hl];
      unfold analyze in Hhigh; cbv zeta in Hhigh; rewrite Hl in Hhigh;
      discriminate Hhigh.
  - intros Hsilent.
    destruct (silent_ratios (analysisData b) Hsilent) as [_ Hh].
    destruct (NaN_ratio_scores now (extractAudioFeatures b) (ab_duration b) Hh)
      as [_ Hrisk].
    unfold analyze. cbv zeta. rewrite Hrisk. reflexivity.
Qed.

Lemma high_risk_iff_silent_witness :
  getRiskLevel (conflictRisk (analyze morning silence1000)) = "高风险"%string /\
  getRiskLevel (conflictRisk (analyze morning alternating4)) <> "高风险"%string.
Proof.
  split.
  - apply (high_risk_iff_silent morning silence1000).
    + vm_compute. discriminate.
    + vm_compute. repeat constructor.
    + vm_compute. reflexivity.
  - intros H. apply (high_risk_iff_silent morning alternating4) in H.
    + vm_compute in H. discriminate H.
    + vm_compute. discriminate.
    + vm_compute. repeat constructor.
Defined.

(** X10.  The report on a silent window: every percentage and the risk are NaN;
    no comparison with NaN holds, so the dominant emotion falls back to calm,
    the level and the advice are those of high risk, and the only
    recommendation is the one for a good state. *)
Theorem silent_window_report (now : string) (b : AudioBuffer) :
  (totalEnergy (analysisData b) == zero)%js ->
  let r := analyze now b in
  emotions r = mkEmotionScores NaN NaN NaN NaN /\
  conflictRisk r = NaN /\
  getDominantEmotion (emotions r) = "平静"%string /\
  getRiskLevel (conflictRisk r) = "高风险"%string /\
  getRiskAdvice (conflictRisk r)
  = "检测到较高冲突风险，建议暂停当前话题，先处理情绪再继续沟通。"%string /\
  recommendations (emotions r) (conflictRisk r) = [rec_default].
Proof.
  intros Hsilent. cbv zeta.
  destruct (silent_ratios (analysisData b) Hsilent) as [_ Hh].
  destruct (NaN_ratio_scores now (extractAudioFeatures b) (ab_duration b) Hh)
    as [Hemo Hrisk].
  unfold analyze. cbv zeta. rewrite Hemo, Hrisk.
  repeat split; reflexivity.
Qed.

Lemma silent_window_report_witness :
  getDominantEmotion (emotions (analyze morning silence1000)) = "平静"%string /\
  getRiskLevel (conflictRisk (analyze morning silence1000)) = "高风险"%string.
Proof.
  assert (H : (totalEnergy (analysisData silence1000) == zero)%js)
    by (vm_compute; reflexivity).
  pose proof (silent_window_report morning silence1000 H) as Hr.
  cbv zeta in Hr. destruct Hr as (_ & _ & Hd & Hl & _).
  exact (conj Hd Hl).
Defined.

(** Decides the comparisons of finite numbers in the goal and turns them
    into facts about rationals. *)
Ltac decide_lt :=
  repeat match goal with
  | |- context [lt (Fin ?a) (Fin ?b)] =>
      let E := fresh "E" in
      destruct (lt (Fin a) (Fin b)) eqn:E;
      [apply lt_Fin in E | apply lt_Fin_false in E]; cbn [fst snd]
  end.

(** X11.  [getDominantEmotion] on finite scores names the greatest score above 0,
    the first in the order calm, tense, angry, excited among equals, and
    calm when no score is above 0. *)
Theorem getDominantEmotion_greatest (c t a e : Q) :
  let s := mkEmotionScores (Fin c) (Fin t) (Fin a) (Fin e) in
  let m := Qmax 0 c in
  (t <= m -> a <= m -> e <= m -> getDominantEmotion s = "平静"%string) /\
  (m < t -> a <= t -> e <= t -> getDominantEmotion s = "紧张"%string) /\
  (m < a -> t < a -> e <= a -> getDominantEmotion s = "愤怒"%string) /\
  (m < e -> t < e -> a < e -> getDominantEmotion s = "兴奋"%string).
Proof.
  cbv zeta.
  destruct (Q.max_spec 0 c) as [[Hc Hm]|[Hc Hm]]; rewrite Hm;
    repeat split; intros H1 H2 H3;
    unfold getDominantEmotion, entries;
    cbn [fold_left dominant_step calm tense angry excited fst snd];
    unfold gt, zero; cbn [fst snd]; decide_lt; try reflexivity; lra.
Qed.

Lemma In_existsb (s : string) (l : list string) :
  In s l <-> existsb (String.eqb s) l = true.
Proof.
  rewrite existsb_exists. split.
  - intros H. exists s. split; [exact H | apply String.eqb_refl].
  - intros (x & Hx & E). apply String.eqb_eq in E. now subst.
Qed.

(** [getActionRecommendations] lists the recommendation to pause exactly
    when the risk is above 50. *)
Lemma rec_pause_iff (emotions : EmotionScores) (risk : num) :
  In rec_pause (recommendations emotions risk) <-> (risk > Fin 50)%js = true.
Proof.
  rewrite In_existsb. unfold recommendations. cbv zeta.
  destruct (gt (angry emotions) (Fin 20)), (gt (tense emotions) (Fin 30)),
    (gt risk (Fin 50)), (gt (calm emotions) (Fin 50));
    vm_compute; split; congruence.
Qed.

(** X12.  The list of recommendations is never empty, has at most four entries,
    holds the recommendation to pause exactly when the risk is above 50, and
    holds the fallback exactly when no other condition applies. *)
Theorem recommendations_shape (emotions : EmotionScores) (risk : num) :
  (1 <= length (recommendations emotions risk) <= 4)%nat /\
  (In rec_pause (recommendations emotions risk) <-> (risk > Fin 50)%js = true) /\
  (In rec_default (recommendations emotions risk) <->
   (angry emotions > Fin 20)%js = false /\ (tense emotions > Fin 30)%js = false /\
   (risk > Fin 50)%js = false /\ (calm emotions > Fin 50)%js = false).
Proof.
  split; [|split].
  - unfold recommendations. cbv zeta.
    destruct (gt (angry emotions) (Fin 20)), (gt (tense emotions) (Fin 30)),
      (gt risk (Fin 50)), (gt (calm emotions) (Fin 50)); vm_compute; split; lia.
  - rewrite In_existsb. unfold recommendations. cbv zeta.
    destruct (gt (angry emotions) (Fin 20)), (gt (tense emotions) (Fin 30)),
      (gt risk (Fin 50)), (gt (calm emotions) (Fin 50));
      vm_compute; split; congruence.
  - rewrite In_existsb. unfold recommendations. cbv zeta.
    destruct (gt (angry emotions) (Fin 20)), (gt (tense emotions) (Fin 30)),
      (gt risk (Fin 50)), (gt (calm emotions) (Fin 50));
      vm_compute; split; intuition congruence.
Qed.

(** X13.  On finite non-negative features the report never reaches the high-risk
    branches: the level is low or medium, and pausing is not recommended. *)
Theorem report_never_high_risk (now : string) (f : AudioFeatures) (d : num) :
  nonneg (rmsVariance f) -> nonneg (zcr f) ->
  nonneg (spectralCentroid f) -> nonneg (highFreqRatio f) ->
  let r := calculateEmotion now f d in
  (getRiskLevel (conflictRisk r) = "低风险"%string \/
   getRiskLevel (conflictRisk r) = "中等风险"%string) /\
  getRiskLevel (conflictRisk r) <> "高风险"%string /\
  ~ In rec_pause (recommendations (emotions r) (conflictRisk r)).
Proof.
  intros Hv Hz Hc Hh. cbv zeta.
  pose proof (conflictRisk_bound now f d Hv Hz Hc Hh) as Hb.
  pose proof (getRiskLevel_below_60 _ Hb) as Hlevel.
  split; [exact Hlevel|]. split.
  - destruct Hlevel as [-> | ->]; discriminate.
  - rewrite rec_pause_iff.
    destruct (conflictRisk (calculateEmotion now f d)) as [q| | |];
      cbn [within] in Hb; try contradiction.
    unfold gt. destruct (lt (Fin 50) (Fin q)) eqn:E; [|discriminate].
    apply lt_Fin in E. lra.
Qed.

Lemma report_never_high_risk_witness :
  getRiskLevel (conflictRisk (calculateEmotion morning angryFeatures (Fin 1)))
  = "中等风险"%string /\
  ~ In rec_pause
      (recommendations (emotions (calculateEmotion morning angryFeatures (Fin 1)))
         (conflictRisk (calculateEmotion morning angryFeatures (Fin 1)))).
Proof.
  split; [reflexivity|].
  apply (report_never_high_risk morning angryFeatures (Fin 1));
    vm_compute; discriminate.
Defined.

(** ** Properties of the upload and analysis controller *)

(** X14.  [handleFile] keeps a file exactly when its type starts with [audio/] and
    its size is at most 50 MB, and then enables the analyse button.  Any
    other file raises one alert and resets the upload: no file is kept, not
    even one chosen before, the button is disabled, the charts are dropped
    and the results are hidden. *)
Theorem handleFile_validates {Chart : Type} (formatFileSize : Z -> string)
    (createObjectURL : File -> string) (file : File) (a : App Chart) :
  let ok := (String.prefix "audio/" (file_type file)
             && (file_size file <=? 50 * 1024 * 1024)%Z)%bool in
  let a' := handleFile formatFileSize createObjectURL file a in
  currentFile a' = (if ok then Some file else None) /\
  document a' "analyzeBtn"%string "disabled"%string = Flag (negb ok) /\
  length (alerts a') = (length (alerts a) + (if ok then 0 else 1))%nat /\
  (ok = false ->
   emotionChart a' = None /\ featureChart a' = None /\
   document a' "uploadArea"%string "style.display"%string = Text "block" /\
   document a' "audioPreview"%string "style.display"%string = Text "none" /\
   document a' "resultsSection"%string "style.display"%string = Text "none").
Proof.
  cbv zeta. unfold handleFile, maxFileSize.
  destruct (String.prefix "audio/" (file_type file)); cbn [negb andb].
  - destruct (Z.gtb_spec (file_size file) (50 * 1024 * 1024)) as [Hgt|Hle].
    + replace (file_size file <=? 50 * 1024 * 1024)%Z with false
        by (symmetry; apply Z.leb_gt; lia).
      unfold showError, resetUpload. cbn [currentFile document alerts
        emotionChart featureChart]. rewrite length_app. cbn [length].
      repeat split; reflexivity.
    + replace (file_size file <=? 50 * 1024 * 1024)%Z with true
        by (symmetry; apply Z.leb_le; lia).
      cbn [currentFile document alerts]. rewrite Nat.add_0_r.
      split; [reflexivity|]. split; [reflexivity|]. split; [reflexivity|].
      intros H. discriminate H.
  - unfold showError, resetUpload. cbn [currentFile document alerts
      emotionChart featureChart]. rewrite length_app. cbn [length].
    repeat split; reflexivity.
Qed.

(** X15.  When the analysis of the chosen file fails, [analyzeAudio] alerts the
    message and resets the upload, and its [finally] block then enables the
    analyse button: the button is enabled with no file chosen, and pressing
    it again changes nothing. *)
Theorem failed_analysis_state {Chart : Type}
    (displayResults : EmotionResult -> App Chart -> App Chart)
    (analyzeAudioFile : File -> Settled) (a : App Chart)
    (file : File) (message : string) :
  currentFile a = Some file ->
  analyzeAudioFile file = Rejected message ->
  let a' := analyzeAudio displayResults analyzeAudioFile a in
  currentFile a' = None /\
  document a' "analyzeBtn"%string "disabled"%string = Flag false /\
  document a' "loading"%string "style.display"%string = Text "none" /\
  document a' "resultsSection"%string "style.display"%string = Text "none" /\
  document a' "uploadArea"%string "style.display"%string = Text "block" /\
  alerts a' = (alerts a ++ [("分析失败: " ++ message)%string]) /\
  consoleErrors a' = consoleErrors a ++ [message] /\
  analyzeAudio displayResults analyzeAudioFile a' = a'.
Proof.
  intros Hfile Hrej. cbv zeta.
  set (a' := analyzeAudio displayResults analyzeAudioFile a).
  assert (Hcur : currentFile a' = None).
  { unfold a', analyzeAudio. rewrite Hfile, Hrej. reflexivity. }
  split; [exact Hcur|].
  split; [unfold a', analyzeAudio; rewrite Hfile, Hrej; reflexivity|].
  split; [unfold a', analyzeAudio; rewrite Hfile, Hrej; reflexivity|].
  split; [unfold a', analyzeAudio; rewrite Hfile, Hrej; reflexivity|].
  split; [unfold a', analyzeAudio; rewrite Hfile, Hrej; reflexivity|].
  split; [unfold a', analyzeAudio; rewrite Hfile, Hrej; reflexivity|].
  split; [unfold a', analyzeAudio; rewrite Hfile, Hrej; reflexivity|].
  generalize dependent a'. intros a' Hcur.
  unfold analyzeAudio. rewrite Hcur. reflexivity.
Qed.

Lemma failed_analysis_state_witness :
  let file := mkFile "talk.wav" "audio/wav" 1024 in
  let a := mkApp (Chart := unit) (Some file) None None
             (fun _ _ => Text EmptyString) [] [] in
  let a' := analyzeAudio (fun _ st => st) (fun _ => Rejected "decode") a in
  currentFile a' = None /\
  document a' "analyzeBtn"%string "disabled"%string = Flag false.
Proof.
  cbv zeta.
  pose proof (failed_analysis_state (Chart := unit) (fun _ st => st)
                (fun _ => Rejected "decode")
                (mkApp (Some (mkFile "talk.wav" "audio/wav" 1024)) None None
                   (fun _ _ => Text EmptyString) [] [])
                (mkFile "talk.wav" "audio/wav" 1024) "decode" eq_refl eq_refl) as H.
  cbv zeta in H. destruct H as (H1 & H2 & _). exact (conj H1 H2).
Defined.

(** ** Polarity *)

Lemma Math_abs_neg (x : num) : Math_abs (neg x) = Math_abs x.
Proof.
  destruct x as [[n d]| | |]; try reflexivity.
  cbn [neg Math_abs]. unfold Qabs, Qopp. cbn [Qnum Qden]. now rewrite Z.abs_opp.
Qed.

Lemma scale_inf_opp (pos : bool) (q : Q) :
  scale_inf pos (- q) = scale_inf (negb pos) q.
Proof.
  unfold scale_inf.
  destruct (Qcompare_spec (- q) 0), (Qcompare_spec q 0), pos;
    try reflexivity; lra.
Qed.

Lemma mul_neg_neg (x y : num) : (neg x * neg y)%js = (x * y)%js.
Proof.
  destruct x as [a| | |], y as [b| | |]; cbn [neg mul]; try reflexivity;
    try apply scale_inf_opp.
  f_equal. apply Qred_complete. ring.
Qed.

Lemma for_index_map {S : Type} (body : Z -> num -> S -> S) (g : num -> num) :
  (forall i x st, body i (g x) st = body i x st) ->
  forall data i st,
    for_index body i (map g data) st = for_index body i data st.
Proof.
  intros Hbody data. induction data as [|x rest IH]; intros i st.
  - reflexivity.
  - simpl. rewrite Hbody. apply IH.
Qed.

Lemma crossings_from_neg (rest : list num) : forall prev count,
  crossings_from (neg prev) (map neg rest) count = crossings_from prev rest count.
Proof.
  induction rest as [|x rest IH]; intros prev count.
  - reflexivity.
  - simpl. rewrite mul_neg_neg. apply IH.
Qed.

Lemma analysisData_invert (b : AudioBuffer) :
  analysisData (invert b) = map neg (analysisData b).
Proof.
  unfold analysisData, invert, getChannelData0, totalSamples, slice0.
  cbn [ab_channel0 ab_duration ab_sampleRate].
  rewrite length_map. apply firstn_map.
Qed.

(** X16.  Inverting the polarity of every sample leaves [rms], [zcr], the two
    ratios and the centroid as they are, whatever the samples.  It does not
    leave [rmsVariance], which is taken around [rms]: for one sample at full
    scale the variance goes from 0 to 4, and the dominant emotion of the
    report from calm to tense. *)
Theorem polarity_inversion (b : AudioBuffer) :
  rms (extractAudioFeatures (invert b)) = rms (extractAudioFeatures b) /\
  zcr (extractAudioFeatures (invert b)) = zcr (extractAudioFeatures b) /\
  lowFreqRatio (extractAudioFeatures (invert b))
  = lowFreqRatio (extractAudioFeatures b) /\
  highFreqRatio (extractAudioFeatures (invert b))
  = highFreqRatio (extractAudioFeatures b) /\
  spectralCentroid (extractAudioFeatures (invert b))
  = spectralCentroid (extractAudioFeatures b) /\
  (rmsVariance (extractAudioFeatures click) = Fin 0 /\
   rmsVariance (extractAudioFeatures (invert click)) = Fin 4 /\
   getDominantEmotion (emotions (analyze morning click)) = "平静"%string /\
   getDominantEmotion (emotions (analyze morning (invert click))) = "紧张"%string).
Proof.
  assert (Hlen : len (map neg (analysisData b)) = len (analysisData b)).
  { unfold len. now rewrite length_map. }
  assert (Hsq : sumSquares (map neg (analysisData b)) = sumSquares (analysisData b)).
  { unfold sumSquares. apply for_index_map. intros i x st. now rewrite mul_neg_neg. }
  assert (Hzc : zeroCrossings (map neg (analysisData b))
                = zeroCrossings (analysisData b)).
  { destruct (analysisData b) as [|x rest]; [reflexivity|].
    simpl. apply crossings_from_neg. }
  assert (Hen : energies (map neg (analysisData b)) = energies (analysisData b)).
  { unfold energies. rewrite length_map. apply for_index_map.
    intros i x st. unfold energy_step. now rewrite Math_abs_neg. }
  assert (Hce : centroid_sums (map neg (analysisData b))
                = centroid_sums (analysisData b)).
  { unfold centroid_sums, frameSize. rewrite length_map, firstn_map.
    apply for_index_map. intros i x st. unfold centroid_step.
    now rewrite Math_abs_neg. }
  assert (Hsf : calculateSpectralFeatures (map neg (analysisData b))
                = calculateSpectralFeatures (analysisData b)).
  { unfold calculateSpectralFeatures. now rewrite Hen, Hce. }
  unfold extractAudioFeatures. cbv zeta.
  cbn [rms zcr lowFreqRatio highFreqRatio spectralCentroid].
  rewrite analysisData_invert, Hlen, Hsq, Hzc, Hsf.
  repeat (split; [reflexivity|]).
  vm_compute. repeat split.
Qed.

(** ** Samples equal to zero *)

Lemma mul_zero_not_negative (x : num) :
  (x * zero < zero)%js = false /\ (zero * x < zero)%js = false.
Proof.
  destruct x as [q| | |]; try (split; reflexivity).
  unfold zero. cbn [mul]. split; apply lt_Fin_false; rewrite Qred_correct; lra.
Qed.

Lemma crossings_from_zero_stuffed (data : list num) : forall count,
  crossings_from zero (flat_map (fun x => [x; zero]) data) count = count.
Proof.
  induction data as [|x rest IH]; intros count.
  - reflexivity.
  - destruct (mul_zero_not_negative x) as [H1 H2].
    simpl flat_map. cbn [crossings_from app]. rewrite H1, H2. apply IH.
Qed.

(** X17.  A sample equal to 0 takes part in no crossing: a window in which every
    second sample is 0 has no zero crossing, whatever the other samples are,
    also when they alternate in sign. *)
Theorem zeros_never_cross (data : list num) :
  zeroCrossings (flat_map (fun x => [x; zero]) data) = 0%Z.
Proof.
  destruct data as [|x rest]; [reflexivity|].
  destruct (mul_zero_not_negative x) as [H1 _].
  simpl flat_map. cbn [zeroCrossings app crossings_from]. rewrite H1.
  apply crossings_from_zero_stuffed.
Qed.
